(** * The calculator's restricted expression evaluator

    A shallow embedding of [calculator_python_adv.py]: the degree
    trigonometry helpers, the registry [ALLOWED_NAMES], the operator table
    [ALLOWED_OPERATORS], [safe_eval] with its tree walker [_eval], and the
    calculator method [evaluate_expression].

    Python objects are modelled by the type [value]; an exception is the
    [Raise] outcome of the [result] monad.  Whatever the program takes from
    its host (the C mathematics library, the standard parser on inputs
    beyond the fragment modelled here, operators on operands that are not
    numbers) is a field of the record [Host], and the statements quantify
    over it; [sample_host] is one host, with the values of the C library
    at the arguments of the examples, on which single inputs are computed.

    A text is the string of the bytes of its UTF-8 encoding, so that the
    multiplication and the division sign are two bytes each.  The tree is
    the one of CPython 3.8 and later, where every literal is a [Constant],
    and [dir(math)] is the one of CPython 3.12.  The rendering [str(v)] of
    a result is left to the host: the display holds [Str v].  The log
    written on a failure and the widgets are left out, as are the limits
    of the host on memory, on the depth of recursion and on the number of
    digits of an integer turned into text. *)

From Stdlib Require Import ZArith QArith Reals Qreals Lra Lia.
From Stdlib Require Import String Ascii List Bool.
From Stdlib Require Import PrimFloat FloatOps SpecFloat FloatAxioms.
From stdpp Require Import gmap strings.
Import ListNotations.

Local Open Scope string_scope.
Local Open Scope Z_scope.

(** ** Exceptions and results *)

Inductive exn :=
| SyntaxError
| KeyError
| TypeError
| ZeroDivisionError
| OverflowError
| ValueError (msg : string)
| OtherException (class : string).

Inductive result (A : Type) :=
| Ok (a : A)
| Raise (e : exn).
Arguments Ok {A} a.
Arguments Raise {A} e.

Definition bind {A B} (r : result A) (k : A -> result B) : result B :=
  match r with
  | Ok a => k a
  | Raise e => Raise e
  end.

Notation "x <- r ;; k" := (bind r (fun x => k))
  (at level 100, r at next level, right associativity).

Definition raises {A} (r : result A) : Prop :=
  match r with
  | Ok _ => False
  | Raise _ => True
  end.

(** ** Python objects *)

(** The callables that the registry can hold: the two builtins, the three
    functions defined in the program, and the functions of the [math]
    module. *)
Inductive callable :=
| builtin_abs
| builtin_pow
| fn_sin_deg
| fn_cos_deg
| fn_tan_deg
| math_fn (name : string).

Inductive value :=
| VInt (n : Z)
| VFloat (x : float)
| VBool (b : bool)
| VStr (s : string)
| VNone
| VComplex (re im : float)
| VCallable (c : callable)
| VOther (repr : string).

(** ** The syntax tree of [ast] *)

Scheme All for list.
Scheme All for prod.
Scheme All for option.

Inductive operator :=
| Add | Sub | Mult | MatMult | Div | Mod | Pow
| LShift | RShift | BitOr | BitXor | BitAnd | FloorDiv.

Inductive unaryop := Invert | Not | UAdd | USub.

(** The node classes that [_eval] inspects have their own constructor;
    [Attribute] and [Subscript] are kept apart because the parser fragment
    below builds them; every other expression class is an [OtherNode]. *)
Inductive expr :=
| Constant (value : value)
| BinOp (left : expr) (op : operator) (right : expr)
| UnaryOp (op : unaryop) (operand : expr)
| Call (func : expr) (args : list expr) (keywords : list (option string * expr))
| Name (id : string)
| Attribute (value : expr) (attr : string)
| Subscript (value : expr) (slice : expr)
| OtherNode (class : string) (fields : list expr).

(** [ast.parse(expr, mode='eval')] returns an [ast.Expression]. *)
Record Expression := { body : expr }.

(** The keys of [ALLOWED_OPERATORS] are operator classes of both kinds. *)
Inductive opclass :=
| BinClass (op : operator)
| UnClass (op : unaryop).

(** The functions of the [operator] module that the table refers to. *)
Inductive opfun :=
| operator_add | operator_sub | operator_mul | operator_truediv
| operator_pow | operator_mod | operator_neg | operator_pos.

(** ** The host *)

Record Host := {
  (** the C library *)
  libm_sin : float -> float;
  libm_cos : float -> float;
  libm_tan : float -> float;
  libm_pow : float -> float -> float;
  libm_fmod : float -> float -> float;
  libm_hypot : float -> float -> float;
  libm_atan2 : float -> float -> float;
  (** a call of a function of [math] that is not modelled below *)
  math_call : string -> list value -> result value;
  (** a builtin or an [operator] function on operands that are not all
      [int], [bool] or [float] *)
  builtin_other : callable -> list value -> result value;
  operator_other : opfun -> list value -> result value;
  (** [ast.parse] on the inputs outside [parse_fragment] *)
  host_parse : string -> result Expression
}.

(** ** Numbers

    A Python [float] is a binary64 value, here Rocq's primitive [float];
    an [int] is unbounded, here [Z]; [bool] is a subclass of [int]. *)

Local Open Scope float_scope.

Definition spec_of_int (n : Z) : spec_float :=
  match n with
  | Z0 => S754_zero false
  | Zpos p => S754_finite false p 0
  | Zneg p => S754_finite true p 0
  end.

(** [PyLong_AsDouble]: the nearest float (ties to even), or
    [OverflowError] when the integer is beyond the range of floats. *)
Definition float_of_int (n : Z) : result float :=
  let x := SF2Prim (binary_normalize prec emax n 0 false) in
  if is_infinity x then Raise OverflowError else Ok x.

(** [PyFloat_AsDouble] on the objects that can occur here. *)
Definition as_double (v : value) : result float :=
  match v with
  | VFloat x => Ok x
  | VInt n => float_of_int n
  | VBool b => float_of_int (Z.b2z b)
  | _ => Raise TypeError
  end.

(** The value of a float that is an integer, if it is one. *)
Definition integer_value (x : float) : option Z :=
  match Prim2SF x with
  | S754_zero _ => Some 0%Z
  | S754_finite s m e =>
      let n := if s then Z.neg m else Z.pos m in
      if (0 <=? e)%Z then Some (n * 2 ^ e)%Z
      else if (Z.pos m mod 2 ^ (- e) =? 0)%Z then Some (n / 2 ^ (- e))%Z
      else None
  | _ => None
  end.

(** [iw == floor(iw)] for a finite [iw]. *)
Definition is_integral (x : float) : bool :=
  match integer_value x with Some _ => true | None => false end.

(** [DOUBLE_IS_ODD_INTEGER]. *)
Definition is_odd_integer (x : float) : bool :=
  match integer_value x with Some n => Z.odd n | None => false end.

Definition copysign_zero (x : float) : float :=
  if get_sign x then neg_zero else zero.

(** The decimal literal [m]e[e10], correctly rounded as [float()] and the
    parser do. *)
Definition float_of_decimal (m : Z) (e10 : Z) : float :=
  if (0 <=? e10)%Z
  then SF2Prim (binary_normalize prec emax (m * 10 ^ e10) 0 false)
  else SF2Prim (SFdiv prec emax (spec_of_int m) (spec_of_int (10 ^ (- e10)))).

(** *** Arithmetic on numbers *)

Inductive number :=
| NInt (n : Z)
| NFloat (x : float).

Definition as_number (v : value) : option number :=
  match v with
  | VInt n => Some (NInt n)
  | VBool b => Some (NInt (Z.b2z b))
  | VFloat x => Some (NFloat x)
  | _ => None
  end.

(** Binary numeric operator: the operands are coerced to a common type,
    [int] to [float] when the other one is a [float]. *)
Definition coerce (a b : number) : result (Z * Z + float * float) :=
  match a, b with
  | NInt x, NInt y => Ok (inl (x, y))
  | NInt x, NFloat y => x' <- float_of_int x ;; Ok (inr (x', y))
  | NFloat x, NInt y => y' <- float_of_int y ;; Ok (inr (x, y'))
  | NFloat x, NFloat y => Ok (inr (x, y))
  end.

Definition int_true_divide (a b : Z) : result value :=
  if (b =? 0)%Z then Raise ZeroDivisionError
  else
    let q := SF2Prim (SFdiv prec emax (spec_of_int a) (spec_of_int b)) in
    if is_infinity q then Raise OverflowError else Ok (VFloat q).

Definition float_div (x y : float) : result value :=
  if y =? 0 then Raise ZeroDivisionError else Ok (VFloat (x / y)).

Definition int_mod (a b : Z) : result value :=
  if (b =? 0)%Z then Raise ZeroDivisionError else Ok (VInt (a mod b)).

Section HostArithmetic.
Variable h : Host.

(** [float_rem] of floatobject.c around the C library's [fmod]. *)
Definition float_rem (vx wx : float) : result value :=
  if wx =? 0 then Raise ZeroDivisionError
  else
    let m := libm_fmod h vx wx in
    if m =? 0 then Ok (VFloat (copysign_zero wx))
    else if xorb (wx <? 0) (m <? 0) then Ok (VFloat (m + wx))
    else Ok (VFloat m).

(** A negative float to a fractional power: the complex power
    [_Py_c_pow] of the two reals; the range error is reported when
    a component of the result is infinite. *)
Definition complex_pow_of_reals (iv iw : float) : result value :=
  let vabs := libm_hypot h iv 0 in
  let len := libm_pow h vabs iw in
  let at_ := libm_atan2 h 0 iv in
  let phase := at_ * iw in
  let re := len * libm_cos h phase in
  let im := len * libm_sin h phase in
  if is_infinity re || is_infinity im then Raise OverflowError
  else Ok (VComplex re im).

(** [float_pow] of floatobject.c. *)
Definition float_pow (iv iw : float) : result value :=
  if iw =? 0 then Ok (VFloat 1)
  else if is_nan iv then Ok (VFloat iv)
  else if is_nan iw then Ok (VFloat (if iv =? 1 then 1 else iw))
  else if is_infinity iw then
    let av := abs iv in
    if av =? 1 then Ok (VFloat 1)
    else if Bool.eqb (0 <? iw) (1 <? av) then Ok (VFloat (abs iw))
    else Ok (VFloat 0)
  else if is_infinity iv then
    let odd := is_odd_integer iw in
    if 0 <? iw then Ok (VFloat (if odd then iv else abs iv))
    else Ok (VFloat (if odd then copysign_zero iv else 0))
  else if iv =? 0 then
    if iw <? 0 then Raise ZeroDivisionError
    else Ok (VFloat (if is_odd_integer iw then iv else 0))
  else if (iv <? 0) && negb (is_integral iw) then
    complex_pow_of_reals iv iw
  else
    let negate_result := (iv <? 0) && is_odd_integer iw in
    let av := if iv <? 0 then - iv else iv in
    if av =? 1 then Ok (VFloat (if negate_result then -1 else 1))
    else
      let ix := libm_pow h av iw in
      if is_infinity ix then Raise OverflowError
      else Ok (VFloat (if negate_result then - ix else ix)).

(** [long_pow] without modulus: exact for an exponent that is not
    negative, [float_pow] otherwise. *)
Definition int_pow (a b : Z) : result value :=
  if (0 <=? b)%Z then Ok (VInt (a ^ b))
  else
    x <- float_of_int a ;;
    y <- float_of_int b ;;
    float_pow x y.

Definition numeric_binop
    (on_int : Z -> Z -> result value)
    (on_float : float -> float -> result value)
    (fallback : result value) (a b : value) : result value :=
  match as_number a, as_number b with
  | Some x, Some y =>
      c <- coerce x y ;;
      match c with
      | inl (m, n) => on_int m n
      | inr (u, v) => on_float u v
      end
  | _, _ => fallback
  end.

(** *** The functions of the [operator] module in the table *)

Definition call_operator (f : opfun) (operands : list value) : result value :=
  let other := operator_other h f operands in
  match f, operands with
  | operator_add, [a; b] =>
      numeric_binop (fun m n => Ok (VInt (m + n)))
                    (fun u v => Ok (VFloat (u + v))) other a b
  | operator_sub, [a; b] =>
      numeric_binop (fun m n => Ok (VInt (m - n)))
                    (fun u v => Ok (VFloat (u - v))) other a b
  | operator_mul, [a; b] =>
      numeric_binop (fun m n => Ok (VInt (m * n)))
                    (fun u v => Ok (VFloat (u * v))) other a b
  | operator_truediv, [a; b] =>
      numeric_binop int_true_divide float_div other a b
  | operator_pow, [a; b] =>
      numeric_binop int_pow float_pow other a b
  | operator_mod, [a; b] =>
      numeric_binop int_mod float_rem other a b
  | operator_neg, [a] =>
      match as_number a with
      | Some (NInt n) => Ok (VInt (- n))
      | Some (NFloat x) => Ok (VFloat (- x))
      | None => other
      end
  | operator_pos, [a] =>
      match as_number a with
      | Some (NInt n) => Ok (VInt n)
      | Some (NFloat x) => Ok (VFloat x)
      | None => other
      end
  | _, _ => Raise TypeError
  end.

End HostArithmetic.

(** ** The [math] module *)

Definition math_pi : float := 0x1.921fb54442d18p+1.
Definition math_e : float := 0x1.5bf0a8b145769p+1.
Definition math_tau : float := 0x1.921fb54442d18p+2.

(** [dir(math)]. *)
Definition dir_math : list string :=
  [ "__doc__"; "__loader__"; "__name__"; "__package__"; "__spec__";
    "acos"; "acosh"; "asin"; "asinh"; "atan"; "atan2"; "atanh"; "cbrt";
    "ceil"; "comb"; "copysign"; "cos"; "cosh"; "degrees"; "dist"; "e";
    "erf"; "erfc"; "exp"; "exp2"; "expm1"; "fabs"; "factorial"; "floor";
    "fmod"; "frexp"; "fsum"; "gamma"; "gcd"; "hypot"; "inf"; "isclose";
    "isfinite"; "isinf"; "isnan"; "isqrt"; "lcm"; "ldexp"; "lgamma"; "log";
    "log10"; "log1p"; "log2"; "modf"; "nan"; "nextafter"; "perm"; "pi";
    "pow"; "prod"; "radians"; "remainder"; "sin"; "sinh"; "sqrt"; "sumprod";
    "tan"; "tanh"; "tau"; "trunc"; "ulp" ].

(** [getattr(math, k)] for [k] in [dir(math)]. *)
Definition getattr_math (k : string) : value :=
  if String.eqb k "e" then VFloat math_e
  else if String.eqb k "pi" then VFloat math_pi
  else if String.eqb k "tau" then VFloat math_tau
  else if String.eqb k "inf" then VFloat infinity
  else if String.eqb k "nan" then VFloat nan
  else if String.eqb k "__name__" then VStr "math"
  else if String.eqb k "__package__" then VStr ""
  else if String.prefix "_" k then VOther ("math." ++ k)
  else VCallable (math_fn k).

(** [math_1] of mathmodule.c: the wrapper of a C function of one
    argument, which turns a NaN or an infinity produced from a finite
    argument into an exception. *)
Definition math_1 (func : float -> float) (can_overflow : bool) (x : float)
  : result float :=
  let r := func x in
  if is_nan r && negb (is_nan x) then Raise (ValueError "math domain error")
  else if is_infinity r && is_finite x then
    if can_overflow then Raise OverflowError
    else Raise (ValueError "math domain error")
  else Ok r.

Definition degToRad : float := math_pi / 180.

(** [math.radians]. *)
Definition math_radians (x : value) : result float :=
  d <- as_double x ;; Ok (d * degToRad).

(** [math.sqrt]. *)
Definition math_sqrt (x : value) : result float :=
  d <- as_double x ;; math_1 sqrt false d.

(** ** Math functions with degrees and rounding for tiny values *)

(** The default [eps=1e-10], the float nearest to that decimal. *)
Definition eps_default : float := 0x1.b7cdfd9d7bdbbp-34.

(** [round_small(val, eps=1e-10)]: [0 if abs(val) < eps else val]; the zero
    is the [int] zero. *)
Definition round_small (val : float) (eps : float) : value :=
  if abs val <? eps then VInt 0 else VFloat val.

Section Registry.
Variable h : Host.

Definition math_sin (x : value) : result float :=
  d <- as_double x ;; math_1 (libm_sin h) false d.
Definition math_cos (x : value) : result float :=
  d <- as_double x ;; math_1 (libm_cos h) false d.
Definition math_tan (x : value) : result float :=
  d <- as_double x ;; math_1 (libm_tan h) false d.

Definition sin_deg (x : value) : result value :=
  r <- math_radians x ;;
  v <- math_sin (VFloat r) ;;
  Ok (round_small v eps_default).

Definition cos_deg (x : value) : result value :=
  r <- math_radians x ;;
  v <- math_cos (VFloat r) ;;
  Ok (round_small v eps_default).

Definition tan_deg (x : value) : result value :=
  r <- math_radians x ;;
  v <- math_tan (VFloat r) ;;
  Ok (round_small v eps_default).

(** The callables of the registry, applied to positional arguments. *)
Definition call_callable (c : callable) (args : list value) : result value :=
  match c, args with
  | builtin_abs, [a] =>
      match as_number a with
      | Some (NInt n) => Ok (VInt (Z.abs n))
      | Some (NFloat x) => Ok (VFloat (abs x))
      | None => builtin_other h c args
      end
  | builtin_abs, _ => Raise TypeError
  | builtin_pow, [a; b] => call_operator h operator_pow [a; b]
  | builtin_pow, [_; _; _] => builtin_other h c args
  | builtin_pow, _ => Raise TypeError
  | fn_sin_deg, [x] => sin_deg x
  | fn_cos_deg, [x] => cos_deg x
  | fn_tan_deg, [x] => tan_deg x
  | (fn_sin_deg | fn_cos_deg | fn_tan_deg), _ => Raise TypeError
  | math_fn name, _ =>
      if String.eqb name "sqrt" then
        match args with
        | [x] => r <- math_sqrt x ;; Ok (VFloat r)
        | _ => Raise TypeError
        end
      else if String.eqb name "radians" then
        match args with
        | [x] => r <- math_radians x ;; Ok (VFloat r)
        | _ => Raise TypeError
        end
      else math_call h name args
  end.

(** Calling an object of the registry with positional arguments. *)
Definition call_value (obj : value) (args : list value) : result value :=
  match obj with
  | VCallable c => call_callable c args
  | _ => Raise TypeError
  end.

End Registry.

(** ** Safe eval *)

(** [{k: getattr(math, k) for k in dir(math) if not k.startswith("_")}] *)
Definition math_names : gmap string value :=
  list_to_map
    (map (fun k => (k, getattr_math k))
         (List.filter (fun k => negb (String.prefix "_" k)) dir_math)).

Definition ALLOWED_NAMES : gmap string value :=
  (list_to_map
     [ ("abs", VCallable builtin_abs);
       ("pow", VCallable builtin_pow);
       ("sin", VCallable fn_sin_deg);
       ("cos", VCallable fn_cos_deg);
       ("tan", VCallable fn_tan_deg);
       ("sinh", getattr_math "sinh");
       ("cosh", getattr_math "cosh");
       ("tanh", getattr_math "tanh");
       ("asinh", getattr_math "asinh");
       ("acosh", getattr_math "acosh");
       ("atanh", getattr_math "atanh") ] : gmap string value)
  ∪ math_names.

Definition operator_table := list (opclass * opfun).

Definition ALLOWED_OPERATORS : operator_table :=
  [ (BinClass Add, operator_add); (BinClass Sub, operator_sub);
    (BinClass Mult, operator_mul); (BinClass Div, operator_truediv);
    (BinClass Pow, operator_pow); (BinClass Mod, operator_mod);
    (UnClass USub, operator_neg); (UnClass UAdd, operator_pos) ].

Definition operator_eqb (a b : operator) : bool :=
  match a, b with
  | Add, Add | Sub, Sub | Mult, Mult | MatMult, MatMult | Div, Div
  | Mod, Mod | Pow, Pow | LShift, LShift | RShift, RShift | BitOr, BitOr
  | BitXor, BitXor | BitAnd, BitAnd | FloorDiv, FloorDiv => true
  | _, _ => false
  end.

Definition unaryop_eqb (a b : unaryop) : bool :=
  match a, b with
  | Invert, Invert | Not, Not | UAdd, UAdd | USub, USub => true
  | _, _ => false
  end.

Definition opclass_eqb (a b : opclass) : bool :=
  match a, b with
  | BinClass x, BinClass y => operator_eqb x y
  | UnClass x, UnClass y => unaryop_eqb x y
  | _, _ => false
  end.

(** [table[key]], a [KeyError] when the key is absent. *)
Fixpoint getitem (table : operator_table) (key : opclass) : result opfun :=
  match table with
  | [] => Raise KeyError
  | (k, f) :: rest => if opclass_eqb k key then Ok f else getitem rest key
  end.

Section SafeEval.
Variable h : Host.
(** The table that [_eval] reads; the program's is [ALLOWED_OPERATORS]. *)
Variable table : operator_table.

(** The inner function [_eval].  It is applied to [tree.body] and to
    nodes below it, which are expressions, so that its first test
    ([isinstance(node, ast.Expression)]) never succeeds. *)
Fixpoint _eval (node : expr) : result value :=
  match node with
  | Constant value => Ok value
  | BinOp node_left op node_right =>
      f <- getitem table (BinClass op) ;;
      a <- _eval node_left ;;
      b <- _eval node_right ;;
      call_operator h f [a; b]
  | UnaryOp op operand =>
      f <- getitem table (UnClass op) ;;
      a <- _eval operand ;;
      call_operator h f [a]
  | Call func args _ =>
      match func with
      | Name id =>
          match ALLOWED_NAMES !! id with
          | Some obj =>
              args' <- (fix eval_args (l : list expr) : result (list value) :=
                          match l with
                          | [] => Ok []
                          | a :: l' =>
                              v <- _eval a ;;
                              vs <- eval_args l' ;;
                              Ok (v :: vs)
                          end) args ;;
              call_value h obj args'
          | None => Raise (ValueError "Invalid function")
          end
      | _ => Raise (ValueError "Invalid function")
      end
  | Name id =>
      match ALLOWED_NAMES !! id with
      | Some obj => Ok obj
      | None => Raise (ValueError "Unsupported expression")
      end
  | _ => Raise (ValueError "Unsupported expression")
  end.

End SafeEval.

(** ** A fragment of [ast.parse(_, mode='eval')]

    The program takes its parser from the host.  The fragment below covers
    the inputs the calculator itself builds and a little more: decimal
    numbers, plain quoted strings, names, [True], [False] and [None], the
    operators [+ - * / // % **], parentheses, calls with positional and
    keyword arguments, attribute access and indexing.  [parse_fragment]
    answers only where it is sure of the tree; on everything else (also on
    what the host would reject) it gives [None] and the host's parser is
    asked. *)

Inductive token :=
| TConst (v : value)
| TName (id : string)
| TPlus | TMinus | TStar | TSlash | TDoubleSlash | TPercent | TDoubleStar
| TLPar | TRPar | TLSqb | TRSqb | TComma | TDot | TEqual.

Local Open Scope nat_scope.

Definition code (c : ascii) : nat := nat_of_ascii c.

Definition is_digit (c : ascii) : bool := (48 <=? code c) && (code c <=? 57).

Definition is_name_start (c : ascii) : bool :=
  ((65 <=? code c) && (code c <=? 90))
  || ((97 <=? code c) && (code c <=? 122))
  || (code c =? 95).

Definition is_name_char (c : ascii) : bool := is_name_start c || is_digit c.

(** A character that could continue a number or a name, so that the token
    before it does not end where the fragment thinks. *)
Definition glues (c : ascii) : bool := is_name_char c || (128 <=? code c).

Definition is_quote (c : ascii) : bool := (code c =? 39) || (code c =? 34).

(** The characters a string literal of the fragment may contain. *)
Definition is_plain (q c : ascii) : bool :=
  (32 <=? code c) && (code c <=? 126)
  && negb (code c =? code q) && negb (code c =? 92).

Fixpoint span (p : ascii -> bool) (s : string) : string * string :=
  match s with
  | EmptyString => (EmptyString, EmptyString)
  | String c s' =>
      if p c then let (a, b) := span p s' in (String c a, b)
      else (EmptyString, s)
  end.

Definition starts_with (p : ascii -> bool) (s : string) : bool :=
  match s with
  | String c _ => p c
  | EmptyString => false
  end.

Fixpoint digits_value (acc : Z) (s : string) : Z :=
  match s with
  | EmptyString => acc
  | String c s' => digits_value (10 * acc + Z.of_nat (code c - 48))%Z s'
  end.

Definition keywords : list string :=
  [ "and"; "as"; "assert"; "async"; "await"; "break"; "class"; "continue";
    "def"; "del"; "elif"; "else"; "except"; "finally"; "for"; "from";
    "global"; "if"; "import"; "in"; "is"; "lambda"; "nonlocal"; "not"; "or";
    "pass"; "raise"; "return"; "try"; "while"; "with"; "yield" ].

Definition mem_string (x : string) (l : list string) : bool :=
  existsb (String.eqb x) l.

(** The exponent part [e[+-]digits] at the head of [s], if there is one. *)
Definition lex_exponent (s : string) : option (Z * string) :=
  match s with
  | String c s1 =>
      if (code c =? 101) || (code c =? 69) then
        let '(negative, s2) :=
          match s1 with
          | String d s2 =>
              if code d =? 45 then (true, s2)
              else if code d =? 43 then (false, s2)
              else (false, s1)
          | EmptyString => (false, s1)
          end in
        let (ds, rest) := span is_digit s2 in
        match ds with
        | EmptyString => None
        | _ =>
            let e := digits_value 0 ds in
            Some (if negative then (- e)%Z else e, rest)
        end
      else None
  | EmptyString => None
  end.

(** A decimal number at the head of [s]: an [int] or a [float]. *)
Definition lex_number (s : string) : option (value * string) :=
  let (ip, s1) := span is_digit s in
  let '(fp, s2) :=
    match s1 with
    | String c s1' =>
        if code c =? 46 then
          let (fd, r) := span is_digit s1' in (Some fd, r)
        else (None, s1)
    | EmptyString => (None, s1)
    end in
  let '(ex, s3) :=
    match lex_exponent s2 with
    | Some (e, r) => (Some e, r)
    | None => (None, s2)
    end in
  let leading_zero := starts_with (fun c => code c =? 48) ip
                      && (1 <? String.length ip) in
  let no_digit :=
    match ip, fp with
    | EmptyString, (None | Some EmptyString) => true
    | _, _ => false
    end in
  if starts_with glues s3 || leading_zero || no_digit then None
  else
    match fp, ex with
    | None, None =>
        if String.length ip <=? 640 then Some (VInt (digits_value 0 ip), s3)
        else None
    | _, _ =>
        let fd := match fp with Some fd => fd | None => EmptyString end in
        let e := match ex with Some e => e | None => 0%Z end in
        Some (VFloat (float_of_decimal (digits_value 0 (ip ++ fd))
                                       (e - Z.of_nat (String.length fd))),
              s3)
    end.

(** A name at the head of [s]. *)
Definition lex_name (s : string) : option (token * string) :=
  let (id, rest) := span is_name_char s in
  if starts_with (fun c => (128 <=? code c) || is_quote c) rest then None
  else if String.eqb id "True" then Some (TConst (VBool true), rest)
  else if String.eqb id "False" then Some (TConst (VBool false), rest)
  else if String.eqb id "None" then Some (TConst VNone, rest)
  else if mem_string id keywords then None
  else Some (TName id, rest).

(** A string literal in quotes [q] whose text starts at [s]. *)
Definition lex_string (q : ascii) (s : string) : option (token * string) :=
  let (text, rest) := span (is_plain q) s in
  match rest with
  | String c rest' =>
      if code c =? code q then
        match text with
        | EmptyString =>
            if starts_with (fun d => code d =? code q) rest' then None
            else Some (TConst (VStr text), rest')
        | _ => Some (TConst (VStr text), rest')
        end
      else None
  | EmptyString => None
  end.

Definition lex_operator (c : ascii) (rest : string) : option (token * string) :=
  let next_is (n : nat) := starts_with (fun d => code d =? n) rest in
  let tail := match rest with String _ r => r | EmptyString => EmptyString end in
  if code c =? 43 then Some (TPlus, rest)
  else if code c =? 45 then Some (TMinus, rest)
  else if code c =? 42 then
    if next_is 42 then Some (TDoubleStar, tail) else Some (TStar, rest)
  else if code c =? 47 then
    if next_is 47 then Some (TDoubleSlash, tail) else Some (TSlash, rest)
  else if code c =? 37 then Some (TPercent, rest)
  else if code c =? 40 then Some (TLPar, rest)
  else if code c =? 41 then Some (TRPar, rest)
  else if code c =? 91 then Some (TLSqb, rest)
  else if code c =? 93 then Some (TRSqb, rest)
  else if code c =? 44 then Some (TComma, rest)
  else if code c =? 46 then Some (TDot, rest)
  else if code c =? 61 then
    if next_is 61 then None else Some (TEqual, rest)
  else None.

Definition lex_token (c : ascii) (rest : string) : option (token * string) :=
  if is_digit c || ((code c =? 46) && starts_with is_digit rest) then
    match lex_number (String c rest) with
    | Some (v, r) => Some (TConst v, r)
    | None => None
    end
  else if is_name_start c then lex_name (String c rest)
  else if is_quote c then lex_string c rest
  else lex_operator c rest.

Fixpoint tokenize (fuel : nat) (s : string) : option (list token) :=
  match fuel with
  | O => None
  | S fuel' =>
      match s with
      | EmptyString => Some []
      | String c rest =>
          if code c =? 32 then tokenize fuel' rest
          else
            match lex_token c rest with
            | Some (t, r) =>
                match tokenize fuel' r with
                | Some ts => Some (t :: ts)
                | None => None
                end
            | None => None
            end
      end
  end.

(** *** From tokens to a tree

    Binding powers follow the grammar: [+ -] bind less than
    [* / // %], these less than a unary sign, a sign less than [**], and
    [**] less than a call, an index or an attribute.  [**] associates to
    the right and takes a signed operand on its right. *)

Definition bp_unary : nat := 3.

Definition binop_of (t : token) : option (operator * nat) :=
  match t with
  | TPlus => Some (Add, 1)
  | TMinus => Some (Sub, 1)
  | TStar => Some (Mult, 2)
  | TSlash => Some (Div, 2)
  | TDoubleSlash => Some (FloorDiv, 2)
  | TPercent => Some (Mod, 2)
  | TDoubleStar => Some (Pow, 4)
  | _ => None
  end.

Definition right_bp (op : operator) (bp : nat) : nat :=
  match op with
  | Pow => bp_unary
  | _ => S bp
  end.

Definition keyword_names (kws : list (option string * expr)) : list string :=
  omap fst kws.

Fixpoint parse_expr (fuel : nat) (min_bp : nat) (ts : list token)
  : option (expr * list token) :=
  match fuel with
  | O => None
  | S f =>
      match ts with
      | TConst v :: r => parse_rest f min_bp (Constant v) r
      | TName id :: r => parse_rest f min_bp (Name id) r
      | TLPar :: r =>
          match parse_expr f 0 r with
          | Some (e, TRPar :: r') => parse_rest f min_bp e r'
          | _ => None
          end
      | TPlus :: r =>
          match parse_expr f bp_unary r with
          | Some (e, r') => parse_rest f min_bp (UnaryOp UAdd e) r'
          | None => None
          end
      | TMinus :: r =>
          match parse_expr f bp_unary r with
          | Some (e, r') => parse_rest f min_bp (UnaryOp USub e) r'
          | None => None
          end
      | _ => None
      end
  end

with parse_rest (fuel : nat) (min_bp : nat) (lhs : expr) (ts : list token)
  : option (expr * list token) :=
  match fuel with
  | O => None
  | S f =>
      match ts with
      | TLPar :: TRPar :: r => parse_rest f min_bp (Call lhs [] []) r
      | TLPar :: r =>
          match parse_args f false r with
          | Some (args, kws, r') => parse_rest f min_bp (Call lhs args kws) r'
          | None => None
          end
      | TLSqb :: r =>
          match parse_expr f 0 r with
          | Some (e, TRSqb :: r') => parse_rest f min_bp (Subscript lhs e) r'
          | _ => None
          end
      | TDot :: TName a :: r => parse_rest f min_bp (Attribute lhs a) r
      | t :: r =>
          match binop_of t with
          | Some (op, bp) =>
              if min_bp <=? bp then
                match parse_expr f (right_bp op bp) r with
                | Some (rhs, r') => parse_rest f min_bp (BinOp lhs op rhs) r'
                | None => None
                end
              else Some (lhs, ts)
          | None => Some (lhs, ts)
          end
      | [] => Some (lhs, [])
      end
  end

(** The arguments of a call after its opening parenthesis, up to and
    including the closing one: positional ones first, then keyword ones
    with distinct names. *)
with parse_args (fuel : nat) (seen_keyword : bool) (ts : list token)
  : option (list expr * list (option string * expr) * list token) :=
  match fuel with
  | O => None
  | S f =>
      match ts with
      | TName k :: TEqual :: r =>
          match parse_expr f 0 r with
          | Some (e, TRPar :: r') => Some ([], [(Some k, e)], r')
          | Some (e, TComma :: r') =>
              match parse_args f true r' with
              | Some (args, kws, r'') =>
                  if mem_string k (keyword_names kws) || String.eqb k "__debug__"
                  then None
                  else Some (args, (Some k, e) :: kws, r'')
              | None => None
              end
          | _ => None
          end
      | _ =>
          if seen_keyword then None
          else
            match parse_expr f 0 ts with
            | Some (e, TRPar :: r') => Some ([e], [], r')
            | Some (e, TComma :: r') =>
                match parse_args f false r' with
                | Some (args, kws, r'') => Some (e :: args, kws, r'')
                | None => None
                end
            | _ => None
            end
      end
  end.

(** The fragment stops at [max_tokens] tokens, far below the limits of
    the host on nesting and on recursion. *)
Definition max_tokens : nat := 200.

Definition parse_fragment (s : string) : option Expression :=
  if starts_with (fun c => code c =? 32) s then None
  else
    match tokenize (S (String.length s)) s with
    | Some ts =>
        if max_tokens <? length ts then None
        else
          match parse_expr (3 * length ts + 3) 0 ts with
          | Some (e, []) => Some {| body := e |}
          | _ => None
          end
    | None => None
    end.

Local Open Scope Z_scope.

Section Evaluate.
Variable h : Host.

(** [ast.parse(expr, mode='eval')]. *)
Definition ast_parse (expr : string) : result Expression :=
  match parse_fragment expr with
  | Some tree => Ok tree
  | None => host_parse h expr
  end.

(** [safe_eval], reading its operators from [table]. *)
Definition safe_eval_with (table : operator_table) (expr : string)
  : result value :=
  tree <- ast_parse expr ;;
  _eval h table (body tree).

Definition safe_eval (expr : string) : result value :=
  safe_eval_with ALLOWED_OPERATORS expr.

End Evaluate.

(** ** The calculator *)

(** [s.replace(old, new)] for a pattern that is not empty: every
    occurrence, leftmost first, without overlap.  [skip] counts the
    characters of a matched occurrence still to be passed over. *)
Fixpoint replace_from (old new : string) (skip : nat) (s : string) : string :=
  match s with
  | EmptyString => EmptyString
  | String c s' =>
      match skip with
      | S k => replace_from old new k s'
      | O =>
          if String.prefix old s
          then new ++ replace_from old new (String.length old - 1) s'
          else String c (replace_from old new 0 s')
      end
  end.

(** With an empty pattern, [new] goes before every character and at the
    end. *)
Fixpoint intersperse (new : string) (s : string) : string :=
  match s with
  | EmptyString => new
  | String c s' => new ++ String c (intersperse new s')
  end.

Definition replace (old new s : string) : string :=
  match old with
  | EmptyString => intersperse new s
  | _ => replace_from old new 0 s
  end.

(** What the display or the pending input holds: a text written in the
    program, or [str(v)] for a value [v], whose rendering is the host's.
    A value whose [str] raises, an [int] of more digits than the host
    turns into text, is outside what [Str] stands for: the program shows
    [Error] for it. *)
Inductive text :=
| Lit (s : string)
| Str (v : value).

(** The two attributes that [evaluate_expression] assigns. *)
Record calculator := {
  result_var : text;
  current_input : text
}.

(** The expression handed to [safe_eval]. *)
Definition expression_of (current_input : string) : string :=
  replace "%" "/100"
    (replace "^" "**"
       (replace "÷" "/"
          (replace "×" "*" current_input))).

Section Calculator.
Variable h : Host.

(** [evaluate_expression] on a calculator whose pending input is
    [current_input], with the operators of [table]. *)
Definition evaluate_expression_with (table : operator_table)
    (current_input : string) : calculator :=
  let expression := expression_of current_input in
  match safe_eval_with h table expression with
  | Ok result => {| result_var := Str result; current_input := Str result |}
  | Raise _ => {| result_var := Lit "Error"; current_input := Lit "" |}
  end.

Definition evaluate_expression (current_input : string) : calculator :=
  evaluate_expression_with ALLOWED_OPERATORS current_input.

End Calculator.

(** *** The button that the program labels [mod] *)

(** [on_button_click('mod')] appends a percent sign to the pending input. *)
Definition on_button_click_mod (current_input : string) : string :=
  current_input ++ "%".

(** ** A host to compute with

    The C library at the arguments used in the examples below, with the
    values that the common implementations give there; [nan] elsewhere. *)

Local Open Scope float_scope.

(** [math.radians] of 30, 45 and 90. *)
Definition radians_30 : float := 0x1.0c152382d7365p-1.
Definition radians_45 : float := 0x1.921fb54442d18p-1.
Definition half_pi : float := 0x1.921fb54442d18p+0.

Definition sample_host : Host := {|
  libm_sin := fun x =>
    if abs x <? 0x1p-26 then x
    else if x =? half_pi then 1
    else if x =? radians_30 then 0x1.fffffffffffffp-2
    else nan;
  libm_cos := fun x =>
    if x =? half_pi then 0x1.1a62633145c07p-54 else nan;
  libm_tan := fun x =>
    if abs x <? 0x1p-27 then x
    else if x =? radians_45 then 0x1.fffffffffffffp-1
    else nan;
  libm_pow := fun x y => if y =? 0.5 then sqrt x else nan;
  libm_fmod := fun _ _ => nan;
  libm_hypot := fun x y => if y =? 0 then abs x else nan;
  libm_atan2 := fun y x =>
    if (y =? 0) && (x <? 0) then (if get_sign y then - math_pi else math_pi)
    else nan;
  math_call := fun _ _ => Raise (OtherException "NotImplementedError");
  builtin_other := fun _ _ => Raise TypeError;
  operator_other := fun _ _ => Raise TypeError;
  host_parse := fun _ => Raise SyntaxError
|}.

Local Close Scope float_scope.

(** The spelling of [sqrt] in fullwidth letters (U+FF53, U+FF51, U+FF52,
    U+FF54): an identifier for the parser, which puts its normal form
    NFKC, the ASCII [sqrt], into the [Name] node. *)
Definition fullwidth_sqrt : string := "ｓｑｒｔ".

(** The sample host with a parser that reads the fullwidth spelling, bare
    and called with the literal [1], as the standard parser does. *)
Definition normalising_host : Host := {|
  libm_sin := libm_sin sample_host;
  libm_cos := libm_cos sample_host;
  libm_tan := libm_tan sample_host;
  libm_pow := libm_pow sample_host;
  libm_fmod := libm_fmod sample_host;
  libm_hypot := libm_hypot sample_host;
  libm_atan2 := libm_atan2 sample_host;
  math_call := math_call sample_host;
  builtin_other := builtin_other sample_host;
  operator_other := operator_other sample_host;
  host_parse := fun s =>
    if String.eqb s fullwidth_sqrt then Ok {| body := Name "sqrt" |}
    else if String.eqb s (fullwidth_sqrt ++ "(1)") then
      Ok {| body := Call (Name "sqrt") [Constant (VInt 1)] [] |}
    else Raise SyntaxError
|}.

(** ** Vocabulary of the statements *)

(** The calculator after a successful evaluation to [v], and after a
    failed one. *)
Definition shows (v : value) : calculator :=
  {| result_var := Str v; current_input := Str v |}.

Definition shows_error : calculator :=
  {| result_var := Lit "Error"; current_input := Lit "" |}.

(** The operator [o] occurs somewhere in the tree. *)
Fixpoint mentions (o : operator) (e : expr) : bool :=
  match e with
  | Constant _ => false
  | Name _ => false
  | BinOp l op r => operator_eqb op o || mentions o l || mentions o r
  | UnaryOp _ a => mentions o a
  | Call f args kws =>
      mentions o f || existsb (mentions o) args
      || existsb (fun kw => mentions o (snd kw)) kws
  | Attribute v _ => mentions o v
  | Subscript v i => mentions o v || mentions o i
  | OtherNode _ fs => existsb (mentions o) fs
  end.

(** The character [c] occurs in [s]. *)
Fixpoint occurs (c : ascii) (s : string) : bool :=
  match s with
  | EmptyString => false
  | String d s' => Ascii.eqb d c || occurs c s'
  end.

Definition percent : ascii := "%"%char.

Definition is_percent (t : token) : bool :=
  match t with
  | TPercent => true
  | _ => false
  end.

(** The table after [del table[key]]. *)
Definition without (key : opclass) (table : operator_table) : operator_table :=
  List.filter (fun entry => negb (opclass_eqb (fst entry) key)) table.

(** An identifier written in ASCII: a name that is not a reserved word. *)
Definition identifier (id : string) : bool :=
  starts_with is_name_start id
  && forallb is_name_char (list_ascii_of_string id)
  && negb (mem_string id ("True" :: "False" :: "None" :: keywords)).

(** The walk of [_eval] meets a node, an operator or a name outside the
    allow-lists.  The keyword arguments of a call are not on its way. *)
Fixpoint meets_disallowed (table : operator_table) (e : expr) : bool :=
  match e with
  | Constant _ => false
  | BinOp l op r =>
      match getitem table (BinClass op) with
      | Ok _ => meets_disallowed table l || meets_disallowed table r
      | Raise _ => true
      end
  | UnaryOp op a =>
      match getitem table (UnClass op) with
      | Ok _ => meets_disallowed table a
      | Raise _ => true
      end
  | Call (Name id) args _ =>
      match ALLOWED_NAMES !! id with
      | Some _ => existsb (meets_disallowed table) args
      | None => true
      end
  | Call _ _ _ => true
  | Name id =>
      match ALLOWED_NAMES !! id with
      | Some _ => false
      | None => true
      end
  | _ => true
  end.

(** A node of a class that [_eval] does not handle occurs in the keyword
    arguments of a call at the root. *)
Definition unhandled_in_keywords (e : expr) : bool :=
  match e with
  | Call _ _ kws =>
      existsb (fun kw => match snd kw with
                         | Attribute _ _ | Subscript _ _ | OtherNode _ _ => true
                         | _ => false
                         end) kws
  | _ => false
  end.

(** The zeros of the numeric types. *)
Definition zero_divisors : list value :=
  [VInt 0; VBool false; VFloat 0%float; VFloat (-0)%float].

(** *** Floats as real numbers *)

(** The rational that a float denotes; zero for what is not a number. *)
Definition SF2Q (x : spec_float) : Q :=
  match x with
  | S754_finite s m e =>
      (inject_Z (if s then Z.neg m else Z.pos m) * Qpower 2 e)%Q
  | _ => 0%Q
  end.

Definition F2R (x : float) : R := Q2R (SF2Q (Prim2SF x)).

(** A mantissa and an exponent in the canonical form of binary64. *)
Definition canonical (m : positive) (e : Z) : Prop :=
  -1074 <= e /\ Z.pos m < 2 ^ 53 /\ (-1074 < e -> 2 ^ 52 <= Z.pos m).

(** The integer [m * 2 ^ (e + 1074)]: the value in units of the smallest
    positive float. *)
Definition scaled (m : positive) (e : Z) : Z := Z.pos m * 2 ^ (e + 1074).

(** The partial sums of the series of sine and cosine, on rationals. *)
Fixpoint factZ (n : nat) : Z :=
  match n with
  | O => 1
  | S k => Z.of_nat n * factZ k
  end.

Definition sign_of (i : nat) : Q := if Nat.even i then 1%Q else (-1)%Q.

Definition qsin_term (a : Q) (i : nat) : Q :=
  (sign_of i
   * (a ^ Z.of_nat (2 * i + 1) / inject_Z (factZ (2 * i + 1))))%Q.

Definition qcos_term (a : Q) (i : nat) : Q :=
  (sign_of i * (a ^ Z.of_nat (2 * i) / inject_Z (factZ (2 * i))))%Q.

Fixpoint qsum (f : nat -> Q) (n : nat) : Q :=
  match n with
  | O => f O
  | S k => (qsum f k + f (S k))%Q
  end.

Definition qsin_approx (a : Q) (n : nat) : Q := qsum (qsin_term a) n.
Definition qcos_approx (a : Q) (n : nat) : Q := qsum (qcos_term a) n.

(** The float [computed] is finite and within [tol] of the real number
    [exact]. *)
Definition accurate (tol : Q) (computed : float) (exact : R) : Prop :=
  is_finite computed = true
  /\ (Rabs (F2R computed - exact) < Q2R tol)%R.

(** What the examples ask of the C library: a sine within 4e-17 of the
    exact one at the radians of 30, which is under three quarters of the
    spacing of the floats there, and a cosine at the radians of 90 and a
    tangent at the radians of 45 within 1e-11 of the exact ones. *)
Definition accurate_at_examples (h : Host) : Prop :=
  accurate (4 # 10 ^ 17) (libm_sin h radians_30) (sin (F2R radians_30))
  /\ accurate (1 # 10 ^ 11) (libm_cos h half_pi) (cos (F2R half_pi))
  /\ accurate (1 # 10 ^ 11) (libm_tan h radians_45) (tan (F2R radians_45)).

(** The host's parser builds a [Mod] node only from a percent sign. *)
Definition mod_from_percent (h : Host) : Prop :=
  forall s tree,
    host_parse h s = Ok tree ->
    mentions Mod (body tree) = true ->
    occurs percent s = true.

(** A text without the characters that start a pattern of the
    replacements: the first byte of the multiplication and division signs,
    the caret and the percent sign. *)
Definition plain_input (s : string) : bool :=
  negb (occurs "195" s) && negb (occurs "^" s) && negb (occurs "%" s).

(** Every character of [r] is one of [s]; so it is when [r] is what a
    lexer leaves of [s]. *)
Definition within (r s : string) : Prop :=
  forall c, occurs c r = true -> occurs c s = true.

(** Tokens without a percent sign. *)
Definition clean (ts : list token) : Prop := existsb is_percent ts = false.

(** * The calculator's buttons and keys

    The state that the callbacks of [AdvancedCalculator] read and write:
    the pending input, the text of the display, the flag of the advanced
    frame and whether that frame is on the grid.  The widgets themselves
    are left out.  A button calls [on_button_click] with its label, a key
    calls [key_press] with its event. *)

(** What the callbacks take from Python's builtins: [str] of a result,
    and [float] of a text outside the fragment below. *)
Record Builtins := {
  str : value -> result string;
  float_other : string -> result float
}.

(** ** Texts as sequences of characters

    In the UTF-8 encoding a character is one byte that is not a
    continuation byte, followed by continuation bytes. *)

Definition is_continuation (c : ascii) : bool :=
  (128 <=? code c)%nat && (code c <? 192)%nat.

Definition all_continuation (s : string) : bool :=
  forallb is_continuation (list_ascii_of_string s).

(** [s[:-1]]: the text without its last character. *)
Fixpoint drop_last (s : string) : string :=
  match s with
  | EmptyString => EmptyString
  | String c s' =>
      if all_continuation s' then EmptyString else String c (drop_last s')
  end.

(** [sub in s] for two texts. *)
Fixpoint contains (s sub : string) : bool :=
  String.prefix sub s
  || match s with
     | EmptyString => false
     | String _ s' => contains s' sub
     end.

(** [s or t] for two texts. *)
Definition or_else (s t : string) : string :=
  match s with
  | EmptyString => t
  | _ => s
  end.

Definition carriage_return : string := String (ascii_of_nat 13) EmptyString.
Definition backspace : string := String (ascii_of_nat 8) EmptyString.

(** ** A fragment of [float] on texts

    [float] takes an optional sign and a decimal number, [inf], [infinity]
    or [nan], between optional spaces; digits and spaces may be other than
    ASCII.  The fragment answers on two kinds of text and leaves the rest
    to the host: a text with a visible ASCII character that no accepted
    text contains, or an empty text, is refused; an optional minus sign,
    ASCII digits and an optional point with further digits is the number
    nearest to that decimal. *)

Definition never_in_float (c : ascii) : bool :=
  (33 <=? code c)%nat && (code c <=? 126)%nat
  && negb (is_digit c)
  && negb (occurs c "+-._aefintyAEFINTY").

Definition float_fragment (s : string) : option (result float) :=
  if existsb never_in_float (list_ascii_of_string s) || String.eqb s ""
  then Some (Raise (ValueError "could not convert string to float"))
  else
    let '(negative, s0) :=
      match s with
      | String c r => if (code c =? 45)%nat then (true, r) else (false, s)
      | EmptyString => (false, s)
      end in
    let sign (x : float) : float := if negative then (- x)%float else x in
    let (ip, s1) := span is_digit s0 in
    match ip, s1 with
    | String _ _, EmptyString =>
        Some (Ok (sign (float_of_decimal (digits_value 0 ip) 0)))
    | String _ _, String c s2 =>
        if (code c =? 46)%nat then
          let (fd, r) := span is_digit s2 in
          match r with
          | EmptyString =>
              Some (Ok (sign (float_of_decimal
                                (digits_value 0 (ip ++ fd))
                                (- Z.of_nat (String.length fd)))))
          | _ => None
          end
        else None
    | _, _ => None
    end.

Module AdvancedCalculator.

Record state := {
  current_input : string;
  result_var : string;
  advanced_visible : bool;
  (** [adv_frame] is on the grid of the window. *)
  adv_frame_gridded : bool
}.

(** The attributes as [__init__] leaves them; the advanced frame is
    created and not put on the grid. *)
Definition __init__ : state := {|
  current_input := "";
  result_var := "0";
  advanced_visible := false;
  adv_frame_gridded := false
|}.

(** [self.current_input = ci; self.result_var.set(rv)]. *)
Definition assign (ci rv : string) (st : state) : state := {|
  current_input := ci;
  result_var := rv;
  advanced_visible := advanced_visible st;
  adv_frame_gridded := adv_frame_gridded st
|}.

(** The labels that [on_button_click] hands to [wrap_function]. *)
Definition function_buttons : list string :=
  [ "sin"; "cos"; "tan"; "log"; "ln"; "sinh"; "cosh"; "tanh";
    "asinh"; "acosh"; "atanh" ].

(** The two attributes of a key event that [key_press] reads. *)
Record Event := {
  char : string;
  keysym : string
}.

Section Callbacks.
Variable h : Host.
Variable b : Builtins.

(** [float(text)]. *)
Definition float_of_str (s : string) : result float :=
  match float_fragment s with
  | Some r => r
  | None => float_other b s
  end.

Definition toggle_advanced (st : state) : state := {|
  current_input := current_input st;
  result_var := result_var st;
  advanced_visible := negb (advanced_visible st);
  adv_frame_gridded := if advanced_visible st then false else true
|}.

Definition toggle_sign (st : state) : state :=
  let ci :=
    if String.prefix "-" (current_input st)
    then match current_input st with
         | String _ r => r
         | EmptyString => EmptyString
         end
    else "-" ++ current_input st in
  assign ci ci st.

(** [apply_unary(func)]; whatever is raised inside is caught. *)
Definition apply_unary (func : float -> result value) (st : state) : state :=
  match
    (value <- float_of_str (or_else (current_input st) (result_var st)) ;;
     result <- func value ;;
     str b result)
  with
  | Ok t => assign t t st
  | Raise _ => assign "" "Error" st
  end.

Definition wrap_function (func_name : string) (st : state) : state :=
  let ci :=
    match current_input st with
    | EmptyString => func_name ++ "("
    | _ => func_name ++ "(" ++ current_input st ++ ")"
    end in
  assign ci ci st.

Definition evaluate_expression (st : state) : state :=
  let expression := expression_of (current_input st) in
  match (result <- safe_eval h expression ;; str b result) with
  | Ok t => assign t t st
  | Raise _ => assign "" "Error" st
  end.

(** [self.current_input += t; self.result_var.set(self.current_input)]. *)
Definition append_input (t : string) (st : state) : state :=
  assign (current_input st ++ t) (current_input st ++ t) st.

(** [str(x)] of one of the two constants raises nothing, or else the
    callback is left before an attribute is assigned. *)
Definition append_constant (x : float) (st : state) : state :=
  match str b (VFloat x) with
  | Ok t => append_input t st
  | Raise _ => st
  end.

Definition on_button_click (text : string) (st : state) : state :=
  if String.eqb text "More" then toggle_advanced st
  else if String.eqb text "C" then assign "" "0" st
  else if String.eqb text "⌫" then
    let ci := drop_last (current_input st) in
    assign ci (or_else ci "0") st
  else if String.eqb text "=" then evaluate_expression st
  else if String.eqb text "±" then toggle_sign st
  else if String.eqb text "√" then
    apply_unary (fun x => r <- math_sqrt (VFloat x) ;; Ok (VFloat r)) st
  else if String.eqb text "x²" then
    apply_unary (fun x => call_operator h operator_pow [VFloat x; VInt 2]) st
  else if String.eqb text "x³" then
    apply_unary (fun x => call_operator h operator_pow [VFloat x; VInt 3]) st
  else if mem_string text ["pow"; "^"] then append_input "^" st
  else if mem_string text function_buttons then wrap_function text st
  else if String.eqb text "π" then append_constant math_pi st
  else if String.eqb text "e" then append_constant math_e st
  else if String.eqb text "mod" then append_input "%" st
  else append_input text st.

Definition key_press (event : Event) (st : state) : state :=
  let key := char event in
  if contains "0123456789.+-*/()^" key then append_input key st
  else if String.eqb key carriage_return then evaluate_expression st
  else if String.eqb key backspace then on_button_click "⌫" st
  else if String.eqb (keysym event) "Escape" then on_button_click "C" st
  else st.

End Callbacks.

End AdvancedCalculator.

(** A builtin [str] that renders no value and a [float] that accepts no
    text beyond the fragment. *)
Definition sample_builtins : Builtins := {|
  str := fun _ => Raise (OtherException "NotImplementedError");
  float_other := fun _ => Raise (ValueError "could not convert string to float")
|}.

(** ** Vocabulary for the buttons and keys *)

(** What the window's loop delivers to the calculator. *)
Inductive event :=
| Click (label : string)
| Key (e : AdvancedCalculator.Event).

Definition handle (h : Host) (b : Builtins) (e : event)
    (st : AdvancedCalculator.state) : AdvancedCalculator.state :=
  match e with
  | Click label => AdvancedCalculator.on_button_click h b label st
  | Key k => AdvancedCalculator.key_press h b k st
  end.

Definition run (h : Host) (b : Builtins) (events : list event)
    (st : AdvancedCalculator.state) : AdvancedCalculator.state :=
  fold_left (fun st e => handle h b e st) events st.

(** The display shows the pending input, or [0] or [Error] when there is
    none. *)
Definition display_follows_input (st : AdvancedCalculator.state) : Prop :=
  AdvancedCalculator.result_var st = AdvancedCalculator.current_input st
  \/ (AdvancedCalculator.current_input st = ""
      /\ (AdvancedCalculator.result_var st = "0"
          \/ AdvancedCalculator.result_var st = "Error")).

(** One character: a byte that is not a continuation byte, and its
    continuation bytes. *)
Definition one_character (t : string) : bool :=
  match t with
  | String c r => negb (is_continuation c) && all_continuation r
  | EmptyString => false
  end.

(** The last byte of [s] is [c]. *)
Fixpoint ends_with (c : ascii) (s : string) : bool :=
  match s with
  | EmptyString => false
  | String d EmptyString => Ascii.eqb d c
  | String _ s' => ends_with c s'
  end.

(** The first byte of the two signs that [evaluate_expression] replaces. *)
Definition lead_byte : ascii := ascii_of_nat 195.

(** The tree starts with a call of the name [id]: it is that call, or the
    call is the left operand, the called object or the object read from of
    the node at the root, and so on downwards. *)
Fixpoint starts_with_call (id : string) (e : expr) : bool :=
  match e with
  | Call (Name f) _ _ => String.eqb f id
  | Call f _ _ => starts_with_call id f
  | BinOp l _ _ => starts_with_call id l
  | Attribute v _ => starts_with_call id v
  | Subscript v _ => starts_with_call id v
  | _ => false
  end.

Definition is_more (e : event) : bool :=
  match e with
  | Click label => String.eqb label "More"
  | Key _ => false
  end.

(** How many times the button [More] is clicked. *)
Fixpoint more_clicks (events : list event) : nat :=
  match events with
  | [] => O
  | e :: events' =>
      if is_more e then S (more_clicks events') else more_clicks events'
  end.

(** The two attributes of the advanced frame after a callback other
    than the one of the button [More]. *)
Definition same_frame (st st' : AdvancedCalculator.state) : Prop :=
  AdvancedCalculator.advanced_visible st'
  = AdvancedCalculator.advanced_visible st
  /\ AdvancedCalculator.adv_frame_gridded st'
     = AdvancedCalculator.adv_frame_gridded st.

(** The text that a button of one operand reads. *)
Definition operand (st : AdvancedCalculator.state) : string :=
  or_else (AdvancedCalculator.current_input st)
          (AdvancedCalculator.result_var st).

(** The pairs that the two dictionaries of [ALLOWED_NAMES] are built
    from: those of the update first, then those of [math]. *)
Definition registry_entries : list (string * value) :=
  [ ("abs", VCallable builtin_abs);
    ("pow", VCallable builtin_pow);
    ("sin", VCallable fn_sin_deg);
    ("cos", VCallable fn_cos_deg);
    ("tan", VCallable fn_tan_deg);
    ("sinh", getattr_math "sinh");
    ("cosh", getattr_math "cosh");
    ("tanh", getattr_math "tanh");
    ("asinh", getattr_math "asinh");
    ("acosh", getattr_math "acosh");
    ("atanh", getattr_math "atanh") ]
  ++ map (fun k => (k, getattr_math k))
       (List.filter (fun k => negb (String.prefix "_" k)) dir_math).

(** A float or a callable. *)
Definition number_or_function (v : value) : bool :=
  match v with
  | VFloat _ | VCallable _ => true
  | _ => false
  end.

(** * Properties *)

#[local] Arguments String.append _ _ : simpl nomatch.

(** ** Text replacement *)

Lemma replace_from_single c new s :
  replace_from (String c EmptyString) new 0 s =
  match s with
  | EmptyString => EmptyString
  | String d s' =>
      if Ascii.eqb c d
      then new ++ replace_from (String c EmptyString) new 0 s'
      else String d (replace_from (String c EmptyString) new 0 s')
  end.
Proof.
  destruct s as [|d s']; [reflexivity|].
  simpl. destruct (Ascii.ascii_dec c d) as [->|Hne].
  - rewrite Ascii.eqb_refl. now destruct s'.
  - apply Ascii.eqb_neq in Hne. now rewrite Hne.
Qed.

Lemma append_assoc (s t u : string) : (s ++ t) ++ u = s ++ (t ++ u).
Proof.
  induction s as [|c s IH]; cbn [append]; [reflexivity|now rewrite IH].
Qed.

Lemma append_empty_r (s : string) : s ++ "" = s.
Proof.
  induction s as [|c s IH]; cbn [append]; [reflexivity|now rewrite IH].
Qed.

Lemma length_append (s t : string) :
  String.length (s ++ t) = (String.length s + String.length t)%nat.
Proof.
  induction s as [|c s IH]; cbn [append String.length];
    [reflexivity|now rewrite IH].
Qed.

Lemma replace_from_single_app c new s t :
  replace_from (String c EmptyString) new 0 (s ++ t) =
  replace_from (String c EmptyString) new 0 s
  ++ replace_from (String c EmptyString) new 0 t.
Proof.
  induction s as [|d s IH]; [reflexivity|].
  change (String d s ++ t) with (String d (s ++ t)).
  rewrite (replace_from_single c new (String d (s ++ t))).
  rewrite (replace_from_single c new (String d s)).
  rewrite IH. destruct (Ascii.eqb c d); [|reflexivity].
  now rewrite append_assoc.
Qed.

Lemma prefix_head a old c s :
  String.prefix (String a old) (String c s) = true -> a = c.
Proof.
  simpl. destruct (ascii_dec a c); [trivial|discriminate].
Qed.

Lemma prefix_length old s :
  String.prefix old s = true -> (String.length old <= String.length s)%nat.
Proof.
  revert s. induction old as [|a old IH]; intros s H; simpl; [lia|].
  destruct s as [|c s]; [discriminate|].
  simpl in H. destruct (ascii_dec a c); [|discriminate].
  apply IH in H. simpl. lia.
Qed.

Lemma prefix_snoc old c s :
  occurs c old = false ->
  String.prefix old (s ++ String c EmptyString) = String.prefix old s.
Proof.
  revert s. induction old as [|a old IH]; intros s H;
    [now destruct s|].
  simpl in H. apply orb_false_iff in H as [Hac Hold].
  destruct s as [|d s]; simpl.
  - destruct (ascii_dec a c) as [->|]; [|reflexivity].
    now rewrite Ascii.eqb_refl in Hac.
  - destruct (ascii_dec a d); [now apply IH|reflexivity].
Qed.

(** A text without the first character of the pattern is left as it is. *)
Lemma replace_from_absent a old new s :
  occurs a s = false -> replace_from (String a old) new 0 s = s.
Proof.
  induction s as [|c s IH]; intros H; [reflexivity|].
  simpl in H. apply orb_false_iff in H as [Hca Hs].
  cbn [replace_from].
  destruct (String.prefix (String a old) (String c s)) eqn:Hp.
  - apply prefix_head in Hp. subst c. now rewrite Ascii.eqb_refl in Hca.
  - now rewrite IH.
Qed.

(** A character that is not in the pattern, put at the end of the text,
    stays at the end of the result. *)
Lemma replace_from_snoc a old new c k s :
  occurs c (String a old) = false -> (k <= String.length s)%nat ->
  replace_from (String a old) new k (s ++ String c EmptyString) =
  replace_from (String a old) new k s ++ String c EmptyString.
Proof.
  intros Hc. revert k. induction s as [|d s IH]; intros k Hk.
  - simpl in Hk. assert (k = 0%nat) as -> by lia.
    cbn [append replace_from].
    replace (String.prefix (String a old) (String c EmptyString)) with false;
      [reflexivity|].
    change (String c EmptyString) with (EmptyString ++ String c EmptyString).
    now rewrite prefix_snoc by assumption.
  - change (String d s ++ String c EmptyString)
      with (String d (s ++ String c EmptyString)).
    cbn [replace_from]. destruct k as [|k].
    + change (String d (s ++ String c EmptyString))
        with (String d s ++ String c EmptyString).
      rewrite prefix_snoc by assumption.
      destruct (String.prefix (String a old) (String d s)) eqn:Hp.
      * apply prefix_length in Hp. simpl in Hp.
        rewrite IH by (simpl; lia). now rewrite append_assoc.
      * rewrite IH by lia. reflexivity.
    + simpl in Hk. apply IH. lia.
Qed.

Lemma occurs_append c s t : occurs c (s ++ t) = occurs c s || occurs c t.
Proof.
  induction s as [|d s IH]; simpl; [reflexivity|].
  now rewrite IH, orb_assoc.
Qed.

(** After the last replacement no percent sign is left. *)
Lemma replace_percent_clears s :
  occurs percent (replace "%" "/100" s) = false.
Proof.
  unfold replace. induction s as [|d s IH]; [reflexivity|].
  rewrite replace_from_single.
  destruct (Ascii.eqb "%" d) eqn:E.
  - rewrite occurs_append, IH. reflexivity.
  - simpl. rewrite IH, orb_false_r.
    rewrite Ascii.eqb_sym. exact E.
Qed.

Lemma expression_of_clears s : occurs percent (expression_of s) = false.
Proof. apply replace_percent_clears. Qed.

(** A percent sign at the end of the input becomes [/100] at the end of
    the expression. *)
Lemma expression_of_trailing_percent s :
  expression_of (s ++ "%") = expression_of s ++ "/100".
Proof.
  unfold expression_of, replace.
  rewrite (replace_from_snoc _ _ _ "%" 0) by (reflexivity || lia).
  rewrite (replace_from_snoc _ _ _ "%" 0) by (reflexivity || lia).
  rewrite (replace_from_snoc _ _ _ "%" 0) by (reflexivity || lia).
  now rewrite replace_from_single_app.
Qed.

Lemma expression_of_plain s : plain_input s = true -> expression_of s = s.
Proof.
  unfold plain_input. intros H.
  apply andb_true_iff in H as [H H3]. apply andb_true_iff in H as [H1 H2].
  apply negb_true_iff in H1, H2, H3.
  unfold expression_of, replace.
  rewrite (replace_from_absent _ _ _ s) by assumption.
  rewrite (replace_from_absent _ _ _ s) by assumption.
  rewrite (replace_from_absent _ _ _ s) by assumption.
  now apply replace_from_absent.
Qed.

(** ** The tokens of a text without percent sign *)

Lemma within_refl s : within s s.
Proof. intros c H; exact H. Qed.

Lemma within_trans r s t : within r s -> within s t -> within r t.
Proof. intros H1 H2 c H. apply H2, H1, H. Qed.

Lemma within_cons r d s : within r s -> within r (String d s).
Proof. intros H c Hc. simpl. rewrite (H c Hc). apply orb_true_r. Qed.

Lemma within_tail d s : within s (String d s).
Proof. apply within_cons, within_refl. Qed.

Lemma within_empty s : within EmptyString s.
Proof. intros c H. discriminate H. Qed.

Lemma span_within p s a b : span p s = (a, b) -> within b s.
Proof.
  revert a b. induction s as [|d s IH]; intros a b H; simpl in H.
  - injection H as <- <-. apply within_refl.
  - destruct (p d).
    + destruct (span p s) as [a' b'] eqn:E. injection H as <- <-.
      apply within_cons. eapply IH. reflexivity.
    + injection H as <- <-. apply within_refl.
Qed.

Create HintDb within.
#[local] Hint Resolve within_refl within_tail within_cons within_empty
  : within.

Lemma lex_exponent_within s e r : lex_exponent s = Some (e, r) -> within r s.
Proof.
  unfold lex_exponent. destruct s as [|c s1]; [discriminate|].
  destruct ((code c =? 101) || (code c =? 69))%nat; [|discriminate].
  intros H. apply within_cons.
  destruct s1 as [|d s2].
  - simpl in H. discriminate.
  - destruct (code d =? 45)%nat; [|destruct (code d =? 43)%nat].
    + destruct (span is_digit s2) as [ds rest] eqn:E.
      destruct ds; [discriminate|]. injection H as _ <-.
      apply within_cons. eapply span_within; eauto.
    + destruct (span is_digit s2) as [ds rest] eqn:E.
      destruct ds; [discriminate|]. injection H as _ <-.
      apply within_cons. eapply span_within; eauto.
    + destruct (span is_digit (String d s2)) as [ds rest] eqn:E.
      destruct ds; [discriminate|]. injection H as _ <-.
      eapply span_within; eauto.
Qed.

Lemma lex_number_within s v r : lex_number s = Some (v, r) -> within r s.
Proof.
  unfold lex_number.
  destruct (span is_digit s) as [ip s1] eqn:E1.
  apply span_within in E1.
  assert (exists fp s2,
    match s1 with
    | String c s1' =>
        if (code c =? 46)%nat
        then let (fd, r0) := span is_digit s1' in (Some fd, r0)
        else (None, s1)
    | EmptyString => (None, s1)
    end = (fp, s2) /\ within s2 s1) as (fp & s2 & -> & H2).
  { destruct s1 as [|c s1']; [eauto with within|].
    destruct (code c =? 46)%nat; [|eauto with within].
    destruct (span is_digit s1') as [fd r0] eqn:E.
    apply span_within in E. eauto with within. }
  assert (exists ex s3,
    match lex_exponent s2 with
    | Some (e, r0) => (Some e, r0)
    | None => (None, s2)
    end = (ex, s3) /\ within s3 s2) as (ex & s3 & -> & H3).
  { destruct (lex_exponent s2) as [[e r0]|] eqn:E; [|eauto with within].
    apply lex_exponent_within in E. eauto. }
  assert (within s3 s) as Hw by eauto using within_trans.
  destruct (_ || _ || _); [discriminate|].
  destruct fp, ex; try (intros H; injection H as _ <-; exact Hw).
  destruct (_ <=? _)%nat; [|discriminate].
  intros H; injection H as _ <-; exact Hw.
Qed.

Lemma lex_name_within s t r :
  lex_name s = Some (t, r) -> within r s /\ is_percent t = false.
Proof.
  unfold lex_name. destruct (span is_name_char s) as [id rest] eqn:E.
  apply span_within in E.
  repeat match goal with
         | |- context [if ?b then _ else _] => destruct b
         end; try discriminate;
    intros H; injection H as <- <-; auto.
Qed.

Lemma lex_string_within q s t r :
  lex_string q s = Some (t, r) -> within r s /\ is_percent t = false.
Proof.
  unfold lex_string. destruct (span (is_plain q) s) as [text rest] eqn:E.
  apply span_within in E.
  destruct rest as [|c rest']; [discriminate|].
  assert (within rest' s) by eauto using within_trans with within.
  destruct (code c =? code q)%nat; [|discriminate].
  destruct text.
  - destruct (starts_with _ rest'); [discriminate|].
    intros H0; injection H0 as <- <-; auto.
  - intros H0; injection H0 as <- <-; auto.
Qed.

Lemma code_percent c : code c = 37%nat -> c = percent.
Proof.
  intros H. rewrite <- (ascii_nat_embedding c).
  unfold code in H. now rewrite H.
Qed.

Lemma lex_operator_within c rest t r :
  lex_operator c rest = Some (t, r) ->
  within r rest /\ (is_percent t = true -> c = percent).
Proof.
  unfold lex_operator.
  assert (within (match rest with String _ r0 => r0 | EmptyString => EmptyString end)
                 rest) as Htail.
  { destruct rest; auto with within. }
  destruct (code c =? 37)%nat eqn:E37.
  - apply Nat.eqb_eq in E37. pose proof (code_percent c E37) as Hc.
    rewrite E37. simpl. intros H; injection H as <- <-. auto with within.
  - repeat match goal with
           | |- context [if ?b then _ else _] => destruct b
           end; try discriminate;
      intros H; injection H as <- <-; split; auto with within;
      discriminate.
Qed.

Lemma lex_token_clean c rest t r :
  occurs percent (String c rest) = false ->
  lex_token c rest = Some (t, r) ->
  occurs percent r = false /\ is_percent t = false.
Proof.
  intros Hs H.
  assert (forall r0, within r0 (String c rest) -> occurs percent r0 = false)
    as Hclean.
  { intros r0 Hw. destruct (occurs percent r0) eqn:E; [|reflexivity].
    apply Hw in E. congruence. }
  unfold lex_token in H.
  destruct (is_digit c || _).
  - destruct (lex_number (String c rest)) as [[v r0]|] eqn:E; [|discriminate].
    injection H as <- <-. apply lex_number_within in E. auto.
  - destruct (is_name_start c).
    + apply lex_name_within in H as [Hw Ht]. auto.
    + destruct (is_quote c).
      * apply lex_string_within in H as [Hw Ht]. auto with within.
      * apply lex_operator_within in H as [Hw Ht]. split.
        -- auto with within.
        -- destruct (is_percent t); [|reflexivity].
           rewrite (Ht eq_refl) in Hs. discriminate Hs.
Qed.

Lemma tokenize_clean fuel s ts :
  occurs percent s = false ->
  tokenize fuel s = Some ts ->
  existsb is_percent ts = false.
Proof.
  revert s ts. induction fuel as [|fuel IH]; intros s ts Hs H; [discriminate|].
  simpl in H. destruct s as [|c rest].
  - now injection H as <-.
  - pose proof Hs as Hs'. simpl in Hs'.
    apply orb_false_iff in Hs' as [_ Hrest].
    destruct (code c =? 32)%nat; [eauto|].
    destruct (lex_token c rest) as [[t r]|] eqn:E; [|discriminate].
    apply (lex_token_clean _ _ _ _ Hs) in E as [Hr Ht].
    destruct (tokenize fuel r) as [ts'|] eqn:E'; [|discriminate].
    injection H as <-. simpl. rewrite Ht. eauto.
Qed.

(** ** The tree of tokens without percent sign *)

Ltac split_match H :=
  match type of H with
  | context [match ?x with _ => _ end] =>
      tryif is_var x then destruct x
      else let E := fresh "E" in destruct x eqn:E
  | context [if ?x then _ else _] =>
      let E := fresh "E" in destruct x eqn:E
  end.

Ltac no_mod :=
  simpl;
  repeat match goal with
         | M : mentions Mod _ = false |- _ => rewrite M
         | M : existsb _ _ = false |- _ => rewrite M
         end;
  reflexivity.

Lemma parse_clean fuel :
  (forall min_bp ts e r,
      clean ts -> parse_expr fuel min_bp ts = Some (e, r) ->
      mentions Mod e = false /\ clean r)
  /\ (forall min_bp lhs ts e r,
      clean ts -> mentions Mod lhs = false ->
      parse_rest fuel min_bp lhs ts = Some (e, r) ->
      mentions Mod e = false /\ clean r)
  /\ (forall seen ts args kws r,
      clean ts -> parse_args fuel seen ts = Some (args, kws, r) ->
      existsb (mentions Mod) args = false
      /\ existsb (fun kw => mentions Mod (snd kw)) kws = false
      /\ clean r).
Proof.
  induction fuel as [|f (IHe & IHr & IHa)];
    [repeat split; intros; discriminate|].
  unfold clean in *.
  assert (forall min_bp ts e r,
             existsb is_percent ts = false ->
             parse_expr (S f) min_bp ts = Some (e, r) ->
             mentions Mod e = false /\ existsb is_percent r = false) as He.
  { intros min_bp ts e r C H. cbn [parse_expr] in H.
    repeat (split_match H; try discriminate H); simpl in C;
      repeat match goal with
             | E : parse_expr f _ ?ts = Some _ |- _ =>
                 apply IHe in E; [destruct E; simpl in *|assumption]
             end;
      (eapply IHr; [| |exact H]; [assumption|no_mod]). }
  assert (forall seen ts args kws r,
             existsb is_percent ts = false ->
             parse_args (S f) seen ts = Some (args, kws, r) ->
             existsb (mentions Mod) args = false
             /\ existsb (fun kw => mentions Mod (snd kw)) kws = false
             /\ existsb is_percent r = false) as Ha.
  { clear He. intros seen ts args kws r C H. cbn [parse_args] in H.
    repeat (split_match H; try discriminate H); simpl in C;
      repeat match goal with
             | E : parse_expr f _ ?ts = Some _ |- _ =>
                 apply IHe in E; [destruct E; simpl in *|assumption]
             | E : parse_args f _ ?ts = Some _ |- _ =>
                 apply IHa in E; [destruct E as (? & ? & ?); simpl in *
                                 |assumption]
             end;
      injection H as <- <- <-; repeat split; try assumption; no_mod. }
  split; [exact He|split; [|exact Ha]]. clear He Ha.
  intros min_bp lhs ts e r C M H; cbn [parse_rest] in H.
  repeat (split_match H; try discriminate H); simpl in C;
      try discriminate C;
      repeat match goal with
             | E : parse_expr f _ ?ts = Some _ |- _ =>
                 apply IHe in E; [destruct E; simpl in *|assumption]
             | E : parse_args f _ ?ts = Some _ |- _ =>
                 apply IHa in E; [destruct E as (? & ? & ?); simpl in *
                                 |assumption]
             | E : None = Some _ |- _ => discriminate E
             | E : Some (?o, _) = Some (_, _) |- _ =>
                 match type of o with
                 | operator => injection E as <- <-
                 end
             end;
      try (injection H as <- <-; split; [assumption|simpl; assumption]);
      try (eapply IHr; [| |exact H]; [assumption|no_mod]).
Qed.

Lemma parse_fragment_no_mod s tree :
  occurs percent s = false ->
  parse_fragment s = Some tree ->
  mentions Mod (body tree) = false.
Proof.
  intros Hs. unfold parse_fragment.
  destruct (starts_with _ s); [discriminate|].
  destruct (tokenize _ s) as [ts|] eqn:Et; [|discriminate].
  apply (tokenize_clean _ _ _ Hs) in Et.
  destruct (max_tokens <? length ts)%nat; [discriminate|].
  destruct (parse_expr _ 0 ts) as [[e r]|] eqn:Ep; [|discriminate].
  destruct r; [|discriminate]. intros H; injection H as <-.
  now apply (proj1 (parse_clean _) _ _ _ _ Et) in Ep.
Qed.

Lemma ast_parse_no_mod h s tree :
  mod_from_percent h ->
  occurs percent s = false ->
  ast_parse h s = Ok tree ->
  mentions Mod (body tree) = false.
Proof.
  intros Hh Hs. unfold ast_parse.
  destruct (parse_fragment s) as [t|] eqn:E.
  - intros H; injection H as <-. eapply parse_fragment_no_mod; eauto.
  - intros H. destruct (mentions Mod (body tree)) eqn:M; [|reflexivity].
    rewrite (Hh _ _ H M) in Hs. discriminate Hs.
Qed.

(** ** The operator table *)

Lemma operator_eqb_eq a b : operator_eqb a b = true <-> a = b.
Proof. split; [destruct a, b; (reflexivity || discriminate)|intros <-; now destruct a]. Qed.

Lemma unaryop_eqb_eq a b : unaryop_eqb a b = true <-> a = b.
Proof. split; [destruct a, b; (reflexivity || discriminate)|intros <-; now destruct a]. Qed.

Lemma opclass_eqb_eq a b : opclass_eqb a b = true <-> a = b.
Proof.
  destruct a as [x|x], b as [y|y]; simpl;
    rewrite ?operator_eqb_eq, ?unaryop_eqb_eq;
    split; intros H; (discriminate || congruence).
Qed.

(** Deleting a key leaves the other entries in place. *)
Lemma getitem_without table key k :
  opclass_eqb key k = false ->
  getitem (without k table) key = getitem table key.
Proof.
  intros Hk. induction table as [|[k0 f] table IH]; [reflexivity|].
  simpl. destruct (opclass_eqb k0 k) eqn:E0; simpl.
  - apply opclass_eqb_eq in E0. subst k0.
    destruct (opclass_eqb k key) eqn:E1; [|exact IH].
    apply opclass_eqb_eq in E1. subst key.
    assert (opclass_eqb k k = true) by now apply opclass_eqb_eq.
    congruence.
  - now rewrite IH.
Qed.

Lemma getitem_without_same table k : getitem (without k table) k = Raise KeyError.
Proof.
  induction table as [|[k0 f] table IH]; [reflexivity|].
  simpl. destruct (opclass_eqb k0 k) eqn:E0; simpl; [exact IH|].
  now rewrite E0.
Qed.

(** ** The walk of [_eval] *)

(** A tree without [Mod] node is evaluated without the [Mod] entry of the
    table. *)
Lemma _eval_without_mod h table e :
  mentions Mod e = false ->
  _eval h (without (BinClass Mod) table) e = _eval h table e.
Proof.
  induction e as [v|l IHl op r IHr|op a IHa|f IHf args IHargs kws _|id
                 |v IHv attr|v IHv i IHi|cls fs _]
    using expr_ind; intros M; simpl in M |- *; try reflexivity.
  - apply orb_false_iff in M as [M Mr]. apply orb_false_iff in M as [Mo Ml].
    rewrite getitem_without by exact Mo.
    now rewrite IHl, IHr.
  - rewrite getitem_without by reflexivity. now rewrite IHa.
  - apply orb_false_iff in M as [M _]. apply orb_false_iff in M as [_ M].
    destruct f; try reflexivity.
    destruct (ALLOWED_NAMES !! id); [|reflexivity].
    f_equal. clear -IHargs M.
    induction IHargs as [|a Ha args _ IH]; [reflexivity|].
    simpl in M. apply orb_false_iff in M as [Ma M].
    now rewrite Ha, IH.
Qed.

Lemma raises_bind_l {A B} (r : result A) (k : A -> result B) :
  raises r -> raises (bind r k).
Proof. destruct r; simpl; tauto. Qed.

Lemma raises_bind_r {A B} (r : result A) (k : A -> result B) :
  (forall a, raises (k a)) -> raises (bind r k).
Proof. destruct r; simpl; auto. Qed.

(** Fail-closed on the way of the walk: a node, an operator or a name
    outside the allow-lists that [_eval] meets makes it raise. *)
Lemma _eval_fail_closed h table e :
  meets_disallowed table e = true -> raises (_eval h table e).
Proof.
  induction e as [v|l IHl op r IHr|op a IHa|f IHf args IHargs kws _|id
                 |v IHv attr|v IHv i IHi|cls fs _]
    using expr_ind; intros M; simpl in M |- *; try exact I;
    try discriminate M.
  - destruct (getitem table (BinClass op)); simpl; [|exact I].
    apply orb_true_iff in M as [M|M].
    + apply raises_bind_l. auto.
    + apply raises_bind_r. intros ?. apply raises_bind_l. auto.
  - destruct (getitem table (UnClass op)); simpl; [|exact I].
    apply raises_bind_l. auto.
  - destruct f; try exact I.
    destruct (ALLOWED_NAMES !! id); [|exact I].
    apply raises_bind_l. clear IHf. revert M.
    induction IHargs as [|a Ha args _ IH]; intros M; [discriminate M|].
    simpl in M. apply orb_true_iff in M as [M|M].
    + apply raises_bind_l. auto.
    + apply raises_bind_r. intros ?. apply raises_bind_l. auto.
  - destruct (ALLOWED_NAMES !! id); [discriminate M|exact I].
Qed.

(** ** Identifiers through the parser *)

Lemma name_start_codes c :
  is_name_start c = true ->
  (code c =? 32)%nat = false /\ is_digit c = false
  /\ (code c =? 46)%nat = false.
Proof.
  unfold is_name_start, is_digit. intros H.
  rewrite !orb_true_iff, !andb_true_iff, !Nat.leb_le, Nat.eqb_eq in H.
  repeat split.
  - apply Nat.eqb_neq. lia.
  - apply andb_false_iff. rewrite !Nat.leb_gt. lia.
  - apply Nat.eqb_neq. lia.
Qed.

Lemma span_all p s t :
  forallb p (list_ascii_of_string s) = true ->
  starts_with p t = false ->
  span p (s ++ t) = (s, t).
Proof.
  intros Hs Ht. induction s as [|c s IH]; simpl in *.
  - destruct t as [|d t]; [reflexivity|]. simpl in Ht |- *. now rewrite Ht.
  - apply andb_true_iff in Hs as [Hc Hs]. now rewrite Hc, IH.
Qed.

Lemma occurs_outside p c s :
  forallb p (list_ascii_of_string s) = true -> p c = false ->
  occurs c s = false.
Proof.
  intros Hs Hc. induction s as [|d s IH]; [reflexivity|].
  simpl in *. apply andb_true_iff in Hs as [Hd Hs].
  rewrite (IH Hs), orb_false_r.
  destruct (Ascii.eqb_spec d c); [congruence|reflexivity].
Qed.

Lemma tokenize_mono fuel fuel' s ts :
  tokenize fuel s = Some ts -> (fuel <= fuel')%nat ->
  tokenize fuel' s = Some ts.
Proof.
  revert fuel' s ts. induction fuel as [|fuel IH]; intros fuel' s ts H Hle;
    [discriminate|].
  destruct fuel' as [|fuel']; [lia|]. simpl in H |- *.
  destruct s as [|c rest]; [exact H|].
  destruct (code c =? 32)%nat; [apply IH; [exact H|lia]|].
  destruct (lex_token c rest) as [[t r]|]; [|discriminate].
  destruct (tokenize fuel r) as [ts'|] eqn:E; [|discriminate].
  rewrite (IH fuel' r ts' E) by lia. exact H.
Qed.

Section Identifiers.
Variable id : string.
Hypothesis Hid : identifier id = true.

Lemma identifier_parts :
  starts_with is_name_start id = true
  /\ forallb is_name_char (list_ascii_of_string id) = true
  /\ String.eqb id "True" = false /\ String.eqb id "False" = false
  /\ String.eqb id "None" = false /\ mem_string id keywords = false.
Proof.
  unfold identifier in Hid.
  change (mem_string id ("True" :: "False" :: "None" :: keywords))
    with (String.eqb id "True" || (String.eqb id "False"
          || (String.eqb id "None" || mem_string id keywords))) in Hid.
  rewrite !andb_true_iff, negb_true_iff, !orb_false_iff in Hid.
  tauto.
Qed.

Lemma lex_name_identifier t :
  starts_with glues t = false ->
  starts_with is_quote t = false ->
  lex_name (id ++ t) = Some (TName id, t).
Proof.
  intros Hg Hq.
  destruct identifier_parts as (_ & Hall & HT & HF & HN & Hk).
  unfold lex_name. rewrite (span_all _ _ _ Hall).
  - replace (starts_with _ t) with false.
    + now rewrite HT, HF, HN, Hk.
    + destruct t as [|d t]; [reflexivity|]. cbn [starts_with] in *.
      unfold glues in Hg. apply orb_false_iff in Hg as [_ Hg].
      now rewrite Hg, Hq.
  - destruct t as [|d t]; [reflexivity|]. cbn [starts_with] in *.
    unfold glues in Hg. now apply orb_false_iff in Hg as [-> _].
Qed.

Lemma tokenize_identifier fuel t ts :
  starts_with glues t = false ->
  starts_with is_quote t = false ->
  tokenize fuel t = Some ts ->
  tokenize (S fuel) (id ++ t) = Some (TName id :: ts).
Proof.
  intros Hg Hq Ht.
  pose proof (lex_name_identifier t Hg Hq) as Hlex.
  destruct identifier_parts as (Hstart & _).
  destruct id as [|c rest]; [discriminate|]. simpl in Hstart.
  destruct (name_start_codes c Hstart) as (H32 & Hdigit & H46).
  change (String c rest ++ t) with (String c (rest ++ t)) in *.
  cbn [tokenize]. rewrite H32. unfold lex_token.
  rewrite Hdigit, H46, Hstart. cbn [orb andb].
  now rewrite Hlex, Ht.
Qed.

Lemma identifier_not_indented t :
  starts_with (fun c => (code c =? 32)%nat) (id ++ t) = false.
Proof.
  destruct identifier_parts as (Hstart & _).
  destruct id as [|c rest]; [discriminate|]. simpl in *.
  now destruct (name_start_codes c Hstart) as (-> & _).
Qed.

Lemma identifier_length : (1 <= String.length id)%nat.
Proof.
  destruct identifier_parts as (Hstart & _).
  destruct id; [discriminate|]. simpl. lia.
Qed.

Lemma parse_fragment_identifier fuel t ts e :
  starts_with glues t = false ->
  starts_with is_quote t = false ->
  tokenize fuel t = Some ts ->
  (fuel <= String.length (id ++ t))%nat ->
  (max_tokens <? length (TName id :: ts))%nat = false ->
  parse_expr (3 * length (TName id :: ts) + 3) 0 (TName id :: ts)
    = Some (e, []) ->
  parse_fragment (id ++ t) = Some {| body := e |}.
Proof.
  intros Hg Hq Ht Hfuel Hmax Hp.
  unfold parse_fragment. rewrite identifier_not_indented.
  rewrite (tokenize_identifier _ t ts Hg Hq).
  - now rewrite Hmax, Hp.
  - now apply (tokenize_mono fuel).
Qed.

(** A bare identifier parses to a [Name] node. *)
Lemma parse_fragment_name : parse_fragment id = Some {| body := Name id |}.
Proof.
  pose proof (parse_fragment_identifier 1 "" [] (Name id)) as H.
  rewrite append_empty_r in H. apply H; try reflexivity.
  apply identifier_length.
Qed.

(** An identifier applied to the literal [1] parses to a [Call] of the
    [Name] node. *)
Lemma parse_fragment_call :
  parse_fragment (id ++ "(1)") =
  Some {| body := Call (Name id) [Constant (VInt 1)] [] |}.
Proof.
  apply (parse_fragment_identifier 4 "(1)" [TLPar; TConst (VInt 1); TRPar]);
    try reflexivity.
  rewrite length_append. pose proof identifier_length. simpl. lia.
Qed.

Lemma identifier_plain t : plain_input t = true -> plain_input (id ++ t) = true.
Proof.
  destruct identifier_parts as (_ & Hall & _).
  unfold plain_input. rewrite !occurs_append.
  now rewrite !(occurs_outside _ _ _ Hall) by reflexivity.
Qed.

End Identifiers.

(** ** Floats *)

Lemma SFeqb_refl x : x <> S754_nan -> SFeqb x x = true.
Proof.
  destruct x as [s|s| |s m e]; intros H; try congruence;
    unfold SFeqb; simpl; try (now destruct s).
  rewrite Z.compare_refl.
  change (Pos.compare_cont Eq m m) with (Pos.compare m m).
  rewrite Pos.compare_refl. now destruct s.
Qed.

(** A float whose magnitude is below a bound is a number, and finite. *)
Lemma small_is_finite (r bound : float) :
  (abs r <? bound)%float = true -> is_nan r = false /\ is_infinity r = false.
Proof.
  rewrite FloatAxioms.ltb_spec, FloatAxioms.abs_spec. unfold is_nan, is_infinity.
  rewrite !FloatAxioms.eqb_spec, FloatAxioms.abs_spec.
  change (Prim2SF infinity) with (S754_infinity false).
  destruct (Prim2SF r) as [s|s| |s m e] eqn:E; intros H.
  - split; reflexivity.
  - exfalso. unfold SFltb in H. simpl in H.
    destruct (Prim2SF bound) as [| [] | |]; discriminate.
  - discriminate.
  - split.
    + rewrite SFeqb_refl; [reflexivity|discriminate].
    + reflexivity.
Qed.

(** A float below zero is a number and is not zero. *)
Lemma negative_is_nonzero (x : float) :
  (x <? 0)%float = true -> is_nan x = false /\ (x =? 0)%float = false.
Proof.
  rewrite FloatAxioms.ltb_spec. unfold is_nan. rewrite !FloatAxioms.eqb_spec.
  change (Prim2SF 0) with (S754_zero false).
  destruct (Prim2SF x) as [s|s| |s m e] eqn:E; intros H;
    try discriminate; split;
    try (rewrite SFeqb_refl; [reflexivity|discriminate]);
    unfold SFeqb; simpl; now destruct s.
Qed.

Lemma fractional_is_nonzero (y : float) :
  is_integral y = false -> (y =? 0)%float = false.
Proof.
  unfold is_integral, integer_value. rewrite FloatAxioms.eqb_spec.
  change (Prim2SF 0) with (S754_zero false).
  destruct (Prim2SF y) as [s|s| |s m e]; intros H;
    try discriminate; try reflexivity; unfold SFeqb; simpl; now destruct s.
Qed.

(** [float_pow] on a finite negative base and a finite exponent that is
    not an integer: the complex power. *)
Lemma float_pow_negative_fractional h (x y : float) :
  is_finite x = true -> (x <? 0)%float = true ->
  is_finite y = true -> is_integral y = false ->
  float_pow h x y = complex_pow_of_reals h x y.
Proof.
  unfold is_finite. intros Fx Nx Fy Iy.
  apply negb_true_iff, orb_false_iff in Fx as [Fx1 Fx2].
  apply negb_true_iff, orb_false_iff in Fy as [Fy1 Fy2].
  destruct (negative_is_nonzero x Nx) as [_ Zx].
  pose proof (fractional_is_nonzero y Iy) as Zy.
  unfold float_pow.
  now rewrite Zy, Fx1, Fy1, Fy2, Fx2, Zx, Nx, Iy.
Qed.

(** True division by a zero of any numeric type raises. *)
Lemma truediv_by_zero h v d :
  as_number v <> None -> In d zero_divisors ->
  raises (call_operator h operator_truediv [v; d]).
Proof.
  intros Hv Hd.
  assert (forall x : float, raises (float_div x 0)) as F0 by (intros x; exact I).
  assert (forall x : float, raises (float_div x (-0))) as F1 by (intros x; exact I).
  simpl in Hd.
  destruct Hd as [<-|[<-|[<-|[<-|[]]]]];
    destruct v as [n|x|b|s| |re im|c|r]; try (now elim Hv);
    cbn [call_operator numeric_binop as_number coerce bind Z.b2z];
    try exact I; try apply F0; try apply F1;
    try (destruct (float_of_int _); cbn [bind];
         [first [apply F0|apply F1]|exact I]).
Qed.

(** ** The degree functions *)

Lemma math_1_small func x :
  (abs (func x) <? eps_default)%float = true ->
  math_1 func false x = Ok (func x).
Proof.
  intros H. destruct (small_is_finite _ _ H) as [Hn Hi].
  unfold math_1. now rewrite Hn, Hi.
Qed.

Lemma degree_function_snaps (func : float -> float) x r :
  math_radians x = Ok r ->
  (abs (func r) <? eps_default)%float = true ->
  (r0 <- math_radians x ;;
   v <- (d <- as_double (VFloat r0) ;; math_1 func false d) ;;
   Ok (round_small v eps_default)) = Ok (VInt 0).
Proof.
  intros Hr Hs. rewrite Hr. cbn [bind as_double].
  rewrite (math_1_small _ _ Hs). cbn [bind].
  unfold round_small. now rewrite Hs.
Qed.

(** ** Floats in the reals *)

Lemma digits2_pos_bounds m :
  2 ^ (Z.pos (digits2_pos m) - 1) <= Z.pos m < 2 ^ Z.pos (digits2_pos m).
Proof.
  induction m as [m IH|m IH|]; cbn [digits2_pos].
  - rewrite Pos2Z.inj_succ.
    replace (Z.succ (Z.pos (digits2_pos m)) - 1)
      with (Z.succ (Z.pos (digits2_pos m) - 1)) by lia.
    rewrite !Z.pow_succ_r by lia. lia.
  - rewrite Pos2Z.inj_succ.
    replace (Z.succ (Z.pos (digits2_pos m)) - 1)
      with (Z.succ (Z.pos (digits2_pos m) - 1)) by lia.
    rewrite !Z.pow_succ_r by lia. lia.
  - simpl. lia.
Qed.

Lemma valid_canonical s m e :
  valid_binary (S754_finite s m e) = true -> canonical m e.
Proof.
  unfold valid_binary, bounded, canonical_mantissa, fexp, SpecFloat.emin.
  intros H. apply andb_true_iff in H as [H _].
  apply Z.eqb_eq in H.
  pose proof (digits2_pos_bounds m) as [Hlo Hhi].
  change prec with 53 in *. change emax with 1024 in *.
  set (d := Z.pos (digits2_pos m)) in *.
  assert (d <= 53 /\ -1074 <= e /\ (-1074 < e -> d = 53))
    as (Hd & He & Hn) by lia.
  repeat split; try lia.
  - apply Z.lt_le_trans with (1 := Hhi). apply Z.pow_le_mono_r; lia.
  - intros Hgt. rewrite (Hn Hgt) in Hlo. exact Hlo.
Qed.

(** On canonical forms the comparison of [SFcompare], exponents first, is
    the comparison of the values. *)
Lemma compare_canonical m1 e1 m2 e2 :
  canonical m1 e1 -> canonical m2 e2 ->
  match e1 ?= e2 with
  | Lt => Lt
  | Gt => Gt
  | Eq => Pos.compare_cont Eq m1 m2
  end = (scaled m1 e1 ?= scaled m2 e2).
Proof.
  intros (L1 & U1 & N1) (L2 & U2 & N2). unfold scaled.
  destruct (Z.compare_spec e1 e2) as [->|Hlt|Hgt].
  - assert (0 < 2 ^ (e2 + 1074)) by (apply Z.pow_pos_nonneg; lia).
    change (Pos.compare_cont Eq m1 m2) with (Pos.compare m1 m2).
    symmetry. destruct (Pos.compare_spec m1 m2) as [->|Hm|Hm].
    + apply Z.compare_refl.
    + apply Z.compare_lt_iff. apply Z.mul_lt_mono_pos_r; lia.
    + apply Z.compare_gt_iff. apply Z.mul_lt_mono_pos_r; lia.
  - symmetry. apply Z.compare_lt_iff.
    replace (e2 + 1074) with ((e1 + 1074) + (e2 - e1)) by lia.
    rewrite (Z.pow_add_r 2 (e1 + 1074) (e2 - e1)) by lia.
    assert (0 < 2 ^ (e1 + 1074)) by (apply Z.pow_pos_nonneg; lia).
    assert (2 ^ 1 <= 2 ^ (e2 - e1)) by (apply Z.pow_le_mono_r; lia).
    specialize (N2 ltac:(lia)).
    change (2 ^ 53) with (2 ^ 52 * 2) in U1. change (2 ^ 1) with 2 in *.
    apply Z.lt_le_trans with (2 ^ 52 * 2 * 2 ^ (e1 + 1074)).
    + apply Z.mul_lt_mono_pos_r; lia.
    + rewrite Z.mul_assoc, (Z.mul_shuffle0 (Z.pos m2)).
      apply Z.mul_le_mono_nonneg_r; [lia|].
      apply Z.mul_le_mono_nonneg; lia.
  - symmetry. apply Z.compare_gt_iff.
    replace (e1 + 1074) with ((e2 + 1074) + (e1 - e2)) by lia.
    rewrite (Z.pow_add_r 2 (e2 + 1074) (e1 - e2)) by lia.
    assert (0 < 2 ^ (e2 + 1074)) by (apply Z.pow_pos_nonneg; lia).
    assert (2 ^ 1 <= 2 ^ (e1 - e2)) by (apply Z.pow_le_mono_r; lia).
    specialize (N1 ltac:(lia)).
    change (2 ^ 53) with (2 ^ 52 * 2) in U2. change (2 ^ 1) with 2 in *.
    apply Z.lt_le_trans with (2 ^ 52 * 2 * 2 ^ (e2 + 1074)).
    + apply Z.mul_lt_mono_pos_r; lia.
    + rewrite Z.mul_assoc, (Z.mul_shuffle0 (Z.pos m1)).
      apply Z.mul_le_mono_nonneg_r; [lia|].
      apply Z.mul_le_mono_nonneg; lia.
Qed.

Lemma positive_value_scaled m e :
  -1074 <= e ->
  (inject_Z (Z.pos m) * 2 ^ e
   == inject_Z (scaled m e) * / inject_Z (2 ^ 1074))%Q.
Proof.
  intros He. unfold scaled.
  rewrite inject_Z_mult.
  rewrite (Qpower.Zpower_Qpower 2 (e + 1074)) by lia.
  rewrite (Qpower.Zpower_Qpower 2 1074) by lia.
  rewrite Qpower.Qpower_plus by discriminate.
  change (inject_Z 2) with 2%Q.
  field; try (apply Qpower.Qpower_not_0; discriminate).
Qed.

Lemma positive_value_lt m1 e1 m2 e2 :
  -1074 <= e1 -> -1074 <= e2 ->
  (inject_Z (Z.pos m1) * 2 ^ e1 < inject_Z (Z.pos m2) * 2 ^ e2)%Q
  <-> scaled m1 e1 < scaled m2 e2.
Proof.
  intros H1 H2. rewrite !positive_value_scaled by assumption.
  rewrite Qmult_lt_r.
  - now rewrite <- Zlt_Qlt.
  - apply Qinv_lt_0_compat. change 0%Q with (inject_Z 0).
    rewrite <- Zlt_Qlt. now apply Z.pow_pos_nonneg.
Qed.

Lemma positive_value_pos m e : (0 < inject_Z (Z.pos m) * 2 ^ e)%Q.
Proof.
  apply Qmult_lt_0_compat; [reflexivity|].
  apply Qpower.Qpower_0_lt. reflexivity.
Qed.

Lemma Q2R_0 : Q2R 0 = 0%R.
Proof. unfold Q2R; simpl; lra. Qed.

(** A finite float is a zero or a canonical mantissa and exponent. *)
Lemma finite_cases (v : float) :
  is_finite v = true ->
  (exists s, Prim2SF v = S754_zero s)
  \/ (exists s m e, Prim2SF v = S754_finite s m e /\ canonical m e).
Proof.
  intros H. pose proof (Prim2SF_valid v) as Hv.
  unfold is_finite, is_nan, is_infinity in H.
  rewrite !FloatAxioms.eqb_spec, FloatAxioms.abs_spec in H.
  change (Prim2SF infinity) with (S754_infinity false) in H.
  destruct (Prim2SF v) as [s|s| |s m e].
  - left. eauto.
  - destruct s; discriminate H.
  - discriminate H.
  - right. exists s, m, e. split; [reflexivity|].
    now apply (valid_canonical s).
Qed.

Lemma Rabs_F2R_finite (v : float) s m e :
  Prim2SF v = S754_finite s m e ->
  Rabs (F2R v) = Q2R (inject_Z (Z.pos m) * 2 ^ e).
Proof.
  intros H. unfold F2R. rewrite H. cbn [SF2Q].
  pose proof (Qlt_Rlt _ _ (positive_value_pos m e)) as Hpos.
  rewrite Q2R_0 in Hpos.
  destruct s.
  - replace (inject_Z (Z.neg m)) with (- inject_Z (Z.pos m))%Q by reflexivity.
    rewrite Q2R_mult, Q2R_opp, <- Ropp_mult_distr_l, <- Q2R_mult, Rabs_Ropp.
    apply Rabs_pos_eq. lra.
  - apply Rabs_pos_eq. lra.
Qed.

(** The test [abs v < b] on floats, for a finite [v] and a positive [b],
    is the comparison of the real values. *)
Lemma abs_ltb_real (v b : float) mb eb :
  is_finite v = true ->
  Prim2SF b = S754_finite false mb eb ->
  (abs v <? b)%float = true <-> (Rabs (F2R v) < F2R b)%R.
Proof.
  intros Hv Hb.
  pose proof (Prim2SF_valid b) as Vb. rewrite Hb in Vb.
  apply valid_canonical in Vb.
  rewrite FloatAxioms.ltb_spec, FloatAxioms.abs_spec, Hb.
  assert (F2R b = Q2R (inject_Z (Z.pos mb) * 2 ^ eb)) as ->
      by (unfold F2R; now rewrite Hb).
  destruct (finite_cases v Hv) as [[s E]|(s & m & e & E & C)].
  - rewrite E. unfold F2R. rewrite E. cbn [SFabs SF2Q].
    rewrite Q2R_0, Rabs_R0.
    pose proof (Qlt_Rlt _ _ (positive_value_pos mb eb)) as Hpos.
    rewrite Q2R_0 in Hpos.
    split; [intros _; exact Hpos|reflexivity].
  - rewrite (Rabs_F2R_finite v s m e E), E. cbn [SFabs].
    unfold SFltb, SFcompare. rewrite (compare_canonical m e mb eb C Vb).
    destruct C as (Le & _), Vb as (Lb & _).
    split.
    + intros H. apply Qlt_Rlt, positive_value_lt; try assumption.
      destruct (Z.compare_spec (scaled m e) (scaled mb eb));
        (assumption || discriminate).
    + intros H. apply Rlt_Qlt, positive_value_lt in H; try assumption.
      apply Z.compare_lt_iff in H. now rewrite H.
Qed.

(** *** Sine and cosine between rationals *)

Lemma INR_factZ n : INR (fact n) = IZR (factZ n).
Proof.
  induction n as [|n IH]; [reflexivity|].
  rewrite fact_simpl, mult_INR, IH.
  change (factZ (S n)) with (Z.of_nat (S n) * factZ n).
  now rewrite mult_IZR, <- INR_IZR_INZ.
Qed.

Lemma factZ_pos n : 0 < factZ n.
Proof.
  induction n as [|n IH]; [reflexivity|].
  change (factZ (S n)) with (Z.of_nat (S n) * factZ n). lia.
Qed.

Lemma Q2R_inject_Z z : Q2R (inject_Z z) = IZR z.
Proof. unfold Q2R. simpl. field. Qed.

Lemma Q2R_sign_of i : Q2R (sign_of i) = ((-1) ^ i)%R.
Proof.
  induction i as [|i IH].
  - unfold sign_of, Q2R; simpl; field.
  - cbn [pow]. rewrite <- IH. unfold sign_of.
    rewrite Nat.even_succ, <- Nat.negb_even.
    destruct (Nat.even i); unfold Q2R; simpl; field.
Qed.

Lemma Q2R_pow a (k : nat) : Q2R (a ^ Z.of_nat k) = (Q2R a ^ k)%R.
Proof.
  rewrite RMicromega.Q2RpowerRZ by (right; lia).
  now rewrite <- pow_powerRZ.
Qed.

Lemma factZ_not_0 k : ~ (inject_Z (factZ k) == 0)%Q.
Proof.
  intros H. pose proof (factZ_pos k).
  unfold Qeq in H. cbn [Qnum Qden inject_Z] in H. lia.
Qed.

Lemma Q2R_qsin_approx a n : Q2R (qsin_approx a n) = sin_approx (Q2R a) n.
Proof.
  assert (forall i, Q2R (qsin_term a i) = sin_term (Q2R a) i) as Hterm.
  { intros i. unfold qsin_term, sin_term.
    now rewrite Q2R_mult, Q2R_sign_of, Q2R_div, Q2R_pow, Q2R_inject_Z,
      INR_factZ by apply factZ_not_0. }
  unfold qsin_approx, sin_approx. induction n as [|n IH]; cbn [qsum sum_f_R0].
  - apply Hterm.
  - now rewrite Q2R_plus, IH, Hterm.
Qed.

Lemma Q2R_qcos_approx a n : Q2R (qcos_approx a n) = cos_approx (Q2R a) n.
Proof.
  assert (forall i, Q2R (qcos_term a i) = cos_term (Q2R a) i) as Hterm.
  { intros i. unfold qcos_term, cos_term.
    now rewrite Q2R_mult, Q2R_sign_of, Q2R_div, Q2R_pow, Q2R_inject_Z,
      INR_factZ by apply factZ_not_0. }
  unfold qcos_approx, cos_approx. induction n as [|n IH]; cbn [qsum sum_f_R0].
  - apply Hterm.
  - now rewrite Q2R_plus, IH, Hterm.
Qed.

Lemma sin_between (a lo hi : Q) (n : nat) :
  (0 <= a)%Q -> (a <= 4)%Q ->
  (lo < qsin_approx a (2 * n + 1))%Q ->
  (qsin_approx a (2 * (n + 1)) < hi)%Q ->
  (Q2R lo < sin (Q2R a) < Q2R hi)%R.
Proof.
  intros H0 H4 Hlo Hhi.
  apply Qle_Rle in H0, H4. apply Qlt_Rlt in Hlo, Hhi.
  rewrite Q2R_qsin_approx in Hlo, Hhi. rewrite Q2R_0 in H0.
  replace (Q2R 4) with 4%R in H4 by (unfold Q2R; simpl; lra).
  destruct (pre_sin_bound (Q2R a) n H0 H4) as [L U]. lra.
Qed.

Lemma cos_between (a lo hi : Q) (n : nat) :
  (-2 <= a)%Q -> (a <= 2)%Q ->
  (lo < qcos_approx a (2 * n + 1))%Q ->
  (qcos_approx a (2 * (n + 1)) < hi)%Q ->
  (Q2R lo < cos (Q2R a) < Q2R hi)%R.
Proof.
  intros H0 H2 Hlo Hhi.
  apply Qle_Rle in H0, H2. apply Qlt_Rlt in Hlo, Hhi.
  rewrite Q2R_qcos_approx in Hlo, Hhi.
  replace (Q2R (-2)) with (-2)%R in H0 by (unfold Q2R; simpl; lra).
  replace (Q2R 2) with 2%R in H2 by (unfold Q2R; simpl; lra).
  destruct (pre_cos_bound (Q2R a) n H0 H2) as [L U]. lra.
Qed.

Ltac decide_rational :=
  first [apply Qle_bool_imp_le|apply Qlt_alt]; vm_compute; reflexivity.

(** The sine of the radians of 30 is below one half by about 4.97e-17. *)
Lemma sin_radians_30 :
  (Q2R ((1 # 2) - (5 # 10 ^ 17)) < sin (F2R radians_30)
   < Q2R ((1 # 2) - (49 # 10 ^ 18)))%R.
Proof. unfold F2R. apply (sin_between _ _ _ 4); decide_rational. Qed.

(** The cosine of the radians of 90 is about 6.12e-17. *)
Lemma cos_half_pi :
  (Q2R (6 # 10 ^ 17) < cos (F2R half_pi) < Q2R (7 # 10 ^ 17))%R.
Proof. unfold F2R. apply (cos_between _ _ _ 7); decide_rational. Qed.

Lemma quotient_between (s c s1 s2 c1 c2 lo hi : R) :
  (s1 < s < s2 -> c1 < c < c2 -> 0 < c1 -> 0 <= lo -> 0 <= hi ->
   lo * c2 <= s1 -> s2 <= hi * c1 -> lo < s / c < hi)%R.
Proof.
  intros [S1 S2] [C1 C2] P L U Hlo Hhi.
  assert (0 < c)%R as Pc by lra.
  assert (lo * c <= lo * c2)%R by (apply Rmult_le_compat_l; lra).
  assert (hi * c1 <= hi * c)%R by (apply Rmult_le_compat_l; lra).
  assert (s / c * c = s)%R as E by (field; lra).
  split; apply (Rmult_lt_reg_r c); try assumption; rewrite E; lra.
Qed.

(** The tangent of the radians of 45 is within 1e-15 of one. *)
Lemma tan_radians_45 :
  (Q2R (1 - (1 # 10 ^ 15)) < tan (F2R radians_45)
   < Q2R (1 + (1 # 10 ^ 15)))%R.
Proof.
  assert (Q2R (7071067811865475 # 10 ^ 16) < sin (F2R radians_45)
          < Q2R (7071067811865476 # 10 ^ 16))%R as HS.
  { unfold F2R. apply (sin_between _ _ _ 4); decide_rational. }
  assert (Q2R (7071067811865475 # 10 ^ 16) < cos (F2R radians_45)
          < Q2R (7071067811865477 # 10 ^ 16))%R as HC.
  { unfold F2R. apply (cos_between _ _ _ 4); decide_rational. }
  unfold tan. apply (quotient_between _ _ _ _ _ _ _ _ HS HC).
  - rewrite <- Q2R_0. apply Qlt_Rlt. decide_rational.
  - rewrite <- Q2R_0. apply Qle_Rle. decide_rational.
  - rewrite <- Q2R_0. apply Qle_Rle. decide_rational.
  - rewrite <- Q2R_mult. apply Qle_Rle. decide_rational.
  - rewrite <- Q2R_mult. apply Qle_Rle. decide_rational.
Qed.

(** ** The calculator on an input whose tree is known *)

Lemma evaluate_expression_parsed h s tree :
  ast_parse h (expression_of s) = Ok tree ->
  evaluate_expression h s =
  match _eval h ALLOWED_OPERATORS (body tree) with
  | Ok result => shows result
  | Raise _ => shows_error
  end.
Proof.
  intros H. unfold evaluate_expression, evaluate_expression_with,
    safe_eval_with. now rewrite H.
Qed.

Lemma evaluate_expression_raises h s tree :
  ast_parse h (expression_of s) = Ok tree ->
  raises (_eval h ALLOWED_OPERATORS (body tree)) ->
  evaluate_expression h s = shows_error.
Proof.
  intros H R. rewrite (evaluate_expression_parsed h s tree H).
  now destruct (_eval h ALLOWED_OPERATORS (body tree)).
Qed.

Lemma ast_parse_fragment h s tree :
  parse_fragment s = Some tree -> ast_parse h s = Ok tree.
Proof. intros H. unfold ast_parse. now rewrite H. Qed.

(** ** The degree functions on accurate results *)

Lemma accurate_between tol v exact lo hi :
  accurate tol v exact -> (Q2R lo < exact < Q2R hi)%R ->
  (Q2R (lo - tol) < F2R v < Q2R (hi + tol))%R.
Proof.
  intros [_ H] [L U]. rewrite Q2R_minus, Q2R_plus.
  apply Rabs_def2 in H. lra.
Qed.

Lemma math_1_finite func x :
  is_finite (func x) = true -> math_1 func false x = Ok (func x).
Proof.
  intros H. unfold math_1. unfold is_finite in H.
  apply negb_true_iff, orb_false_iff in H as [Hn Hi].
  now rewrite Hn, Hi.
Qed.

Lemma eps_default_fields :
  Prim2SF eps_default = S754_finite false 7737125245533627 (-86).
Proof. reflexivity. Qed.

(** A finite float whose value is at least [eps] away from zero is kept. *)
Lemma round_small_keeps v lo :
  is_finite v = true -> (Q2R lo < F2R v)%R ->
  (SF2Q (Prim2SF eps_default) <= lo)%Q ->
  round_small v eps_default = VFloat v.
Proof.
  intros Hf Hlo Heps. unfold round_small.
  destruct (abs v <? eps_default)%float eqn:E; [|reflexivity].
  apply (abs_ltb_real v _ _ _ Hf eps_default_fields) in E.
  apply Qle_Rle in Heps. fold (F2R eps_default) in Heps.
  pose proof (Rle_abs (F2R v)). lra.
Qed.

(** A finite float whose value is nearer to zero than [eps] becomes the
    integer zero. *)
Lemma round_small_snaps v lo hi :
  is_finite v = true -> (Q2R lo < F2R v < Q2R hi)%R ->
  (- SF2Q (Prim2SF eps_default) <= lo)%Q ->
  (hi <= SF2Q (Prim2SF eps_default))%Q ->
  round_small v eps_default = VInt 0.
Proof.
  intros Hf [Hlo Hhi] Le Ue. unfold round_small.
  destruct (abs v <? eps_default)%float eqn:E; [reflexivity|].
  apply not_true_iff_false in E. exfalso. apply E.
  apply (abs_ltb_real v _ _ _ Hf eps_default_fields).
  apply Qle_Rle in Le, Ue. rewrite Q2R_opp in Le.
  fold (F2R eps_default) in Le, Ue.
  apply Rabs_def1; lra.
Qed.

Lemma Q2R_1 : Q2R 1 = 1%R.
Proof. unfold Q2R; simpl; lra. Qed.


(** The one float strictly between [0.5 - 2^-53] and [0.5]. *)
Lemma below_half_unique (v : float) :
  is_finite v = true ->
  (Q2R (inject_Z (Z.pos (2 ^ 53 - 2)) * 2 ^ (-54)) < F2R v
   < Q2R (inject_Z (Z.pos (2 ^ 53)) * 2 ^ (-54)))%R ->
  v = 0x1.fffffffffffffp-2%float.
Proof.
  intros Hf [L U].
  destruct (finite_cases v Hf) as [[s E]|(s & m & e & E & C)].
  - exfalso. unfold F2R in L. rewrite E in L. cbn [SF2Q] in L.
    apply Rlt_Qlt in L. revert L. apply Qle_not_lt. decide_rational.
  - unfold F2R in L, U. rewrite E in L, U.
    destruct s; cbn [SF2Q] in L, U.
    + exfalso. pose proof (positive_value_pos m e) as P.
      apply Rlt_Qlt in L.
      assert (0 < inject_Z (Z.pos (2 ^ 53 - 2)) * 2 ^ (-54))%Q as P0
        by decide_rational.
      change (inject_Z (Z.neg m)) with (- inject_Z (Z.pos m))%Q in L.
      apply Qlt_Rlt in P, P0, L.
      rewrite (Q2R_mult (- _)), Q2R_opp in L.
      rewrite Q2R_mult in P. rewrite Q2R_0 in P, P0. lra.
    + pose proof C as (Le & Um & Nm).
      apply Rlt_Qlt, positive_value_lt in L, U; try lia.
      unfold scaled in L, U.
      change (-54 + 1074) with 1020 in L, U.
      assert (0 < 2 ^ 1020) as P by (apply Z.pow_pos_nonneg; lia).
      assert (e = -54) as ->.
      { destruct (Z.lt_trichotomy e (-54)) as [Hlt|[->|Hgt]];
          [exfalso|reflexivity|exfalso].
        - assert (2 ^ (e + 1074) * 2 <= 2 ^ 1020) as Hp.
          { rewrite Z.mul_comm, <- (Z.pow_succ_r 2 (e + 1074)) by lia.
            apply Z.pow_le_mono_r; lia. }
          assert (0 < 2 ^ (e + 1074)) as Pa by (apply Z.pow_pos_nonneg; lia).
          assert (Z.pos m * 2 ^ (e + 1074)
                  <= 9007199254740991 * 2 ^ (e + 1074)) as Hm
            by (apply Z.mul_le_mono_nonneg_r; lia).
          change (Z.pos (2 ^ 53 - 2)) with 9007199254740990 in L.
          revert L Hm Hp Pa.
          generalize (Z.pos m * 2 ^ (e + 1074)) (2 ^ (e + 1074)) (2 ^ 1020).
          intros; lia.
        - specialize (Nm ltac:(lia)).
          assert (2 ^ 1020 * 2 <= 2 ^ (e + 1074)) as Hp.
          { rewrite Z.mul_comm, <- (Z.pow_succ_r 2 1020) by lia.
            apply Z.pow_le_mono_r; lia. }
          assert (4503599627370496 * 2 ^ (e + 1074)
                  <= Z.pos m * 2 ^ (e + 1074)) as Hm
            by (apply Z.mul_le_mono_nonneg_r; lia).
          change (Z.pos (2 ^ 53)) with 9007199254740992 in U.
          revert U Hm Hp P.
          generalize (Z.pos m * 2 ^ (e + 1074)) (2 ^ (e + 1074)) (2 ^ 1020).
          intros; lia. }
      change (-54 + 1074) with 1020 in L, U.
      apply Z.mul_lt_mono_pos_r in L, U; try assumption.
      assert (m = (2 ^ 53 - 1)%positive) as -> by lia.
      rewrite <- (SF2Prim_Prim2SF v), E. reflexivity.
Qed.

Lemma accurate_from_bounds tol v exact lo hi :
  is_finite v = true -> (Q2R lo < exact < Q2R hi)%R ->
  (SF2Q (Prim2SF v) - tol <= lo)%Q -> (hi <= SF2Q (Prim2SF v) + tol)%Q ->
  accurate tol v exact.
Proof.
  intros Hf [L U] Hlo Hhi. split; [exact Hf|].
  apply Qle_Rle in Hlo, Hhi. rewrite Q2R_minus in Hlo. rewrite Q2R_plus in Hhi.
  fold (F2R v) in Hlo, Hhi. apply Rabs_def1; lra.
Qed.

Lemma sample_host_accurate : accurate_at_examples sample_host.
Proof.
  split; [|split].
  - eapply accurate_from_bounds;
      [reflexivity|exact sin_radians_30|decide_rational..].
  - eapply accurate_from_bounds;
      [reflexivity|exact cos_half_pi|decide_rational..].
  - eapply accurate_from_bounds;
      [reflexivity|exact tan_radians_45|decide_rational..].
Qed.

(** * The claims *)

(** Floats are written in decimal below, each the shortest decimal that
    denotes it. *)
#[local] Set Warnings "-inexact-float".

(** C1, where the program departs from the claim.  The input
    [abs(-7, key=x.y)] holds an attribute access, a node outside the
    allow-list, as a keyword argument.  [_eval] does not look at the
    keyword arguments of a call: [safe_eval] returns 7 and the calculator
    shows it, where the claim asks for a failure. *)
Theorem keyword_arguments_unchecked (h : Host) :
  ast_parse h (expression_of "abs(-7, key=x.y)") =
    Ok {| body := Call (Name "abs") [UnaryOp USub (Constant (VInt 7))]
                       [(Some "key", Attribute (Name "x") "y")] |}
  /\ unhandled_in_keywords
       (Call (Name "abs") [UnaryOp USub (Constant (VInt 7))]
             [(Some "key", Attribute (Name "x") "y")]) = true
  /\ safe_eval h (expression_of "abs(-7, key=x.y)") = Ok (VInt 7)
  /\ evaluate_expression h "abs(-7, key=x.y)" = shows (VInt 7).
Proof. repeat split; vm_compute; reflexivity. Qed.

(** C2, amended.  [sin], [cos] and [tan] of the registry are the degree
    functions, and [math.radians] takes 30, 90 and 45 to the floats nearest
    to pi/6, pi/2 and pi/4.  On every C library that is accurate at these
    three arguments, the input [sin(30)] shows 0.49999999999999994 and not
    0.5: the exact sine of the float nearest to pi/6 is below one half by
    4.97e-17, nearer to the float below one half than to one half itself.
    [cos(90)] shows the integer 0, and [tan(45)] shows the float that the C
    library returns, which is within 1e-10 of 1. *)
Theorem degree_trig_examples (h : Host) :
  accurate_at_examples h ->
  ALLOWED_NAMES !! "sin" = Some (VCallable fn_sin_deg)
  /\ ALLOWED_NAMES !! "cos" = Some (VCallable fn_cos_deg)
  /\ ALLOWED_NAMES !! "tan" = Some (VCallable fn_tan_deg)
  /\ math_radians (VInt 30) = Ok radians_30
  /\ math_radians (VInt 90) = Ok half_pi
  /\ math_radians (VInt 45) = Ok radians_45
  /\ evaluate_expression h "sin(30)" = shows (VFloat 0.49999999999999994)
  /\ evaluate_expression h "cos(90)" = shows (VInt 0)
  /\ evaluate_expression h "tan(45)" = shows (VFloat (libm_tan h radians_45))
  /\ (Rabs (F2R (libm_tan h radians_45) - 1) < Q2R (1 # 10 ^ 10))%R.
Proof.
  intros (As & Ac & At).
  pose proof (accurate_between _ _ _ _ _ As sin_radians_30) as [Ls Us].
  pose proof (accurate_between _ _ _ _ _ Ac cos_half_pi) as Bc.
  pose proof (accurate_between _ _ _ _ _ At tan_radians_45) as [Lt Ut].
  destruct As as [Fs _], Ac as [Fc _], At as [Ft _].
  assert (libm_sin h radians_30 = 0.49999999999999994%float) as Es.
  { apply (below_half_unique _ Fs). split.
    - eapply Rle_lt_trans; [|exact Ls]. apply Qle_Rle. decide_rational.
    - eapply Rlt_le_trans; [exact Us|]. apply Qle_Rle. decide_rational. }
  do 6 (split; [vm_compute; reflexivity|]).
  split; [|split; [|split]].
  - rewrite (evaluate_expression_parsed h _
      {| body := Call (Name "sin") [Constant (VInt 30)] [] |})
      by (vm_compute; reflexivity).
    change (_eval h ALLOWED_OPERATORS _) with
      (v <- math_1 (libm_sin h) false radians_30 ;;
       Ok (round_small v eps_default)).
    rewrite (math_1_finite _ _ Fs). cbn [bind].
    rewrite Es. reflexivity.
  - rewrite (evaluate_expression_parsed h _
      {| body := Call (Name "cos") [Constant (VInt 90)] [] |})
      by (vm_compute; reflexivity).
    change (_eval h ALLOWED_OPERATORS _) with
      (v <- math_1 (libm_cos h) false half_pi ;;
       Ok (round_small v eps_default)).
    rewrite (math_1_finite _ _ Fc). cbn [bind].
    rewrite (round_small_snaps _ _ _ Fc Bc) by decide_rational.
    reflexivity.
  - rewrite (evaluate_expression_parsed h _
      {| body := Call (Name "tan") [Constant (VInt 45)] [] |})
      by (vm_compute; reflexivity).
    change (_eval h ALLOWED_OPERATORS _) with
      (v <- math_1 (libm_tan h) false radians_45 ;;
       Ok (round_small v eps_default)).
    rewrite (math_1_finite _ _ Ft). cbn [bind].
    rewrite (round_small_keeps _ _ Ft Lt) by decide_rational.
    reflexivity.
  - assert (1 - Q2R (1 # 10 ^ 10)
            <= Q2R (1 - (1 # 10 ^ 15) - (1 # 10 ^ 11)))%R as L
      by (rewrite <- Q2R_1, <- Q2R_minus; apply Qle_Rle; decide_rational).
    assert (Q2R (1 + (1 # 10 ^ 15) + (1 # 10 ^ 11))
            <= 1 + Q2R (1 # 10 ^ 10))%R as U
      by (rewrite <- Q2R_1, <- Q2R_plus; apply Qle_Rle; decide_rational).
    apply Rabs_def1; lra.
Qed.

Lemma degree_trig_examples_witness :
  evaluate_expression sample_host "sin(30)"
    = shows (VFloat 0.49999999999999994)
  /\ evaluate_expression sample_host "cos(90)" = shows (VInt 0)
  /\ evaluate_expression sample_host "tan(45)"
     = shows (VFloat 0.9999999999999999).
Proof.
  pose proof (degree_trig_examples sample_host sample_host_accurate) as H.
  repeat split; apply H.
Defined.


(** The input [sin(30)] on the sample host, whose sine at the radians of
    30 is the correctly rounded one: the calculator shows
    0.49999999999999994 where the claim says 0.5. *)
Lemma sine_of_30_shown :
  evaluate_expression sample_host "sin(30)"
  = shows (VFloat 0.49999999999999994).
Proof. vm_compute. reflexivity. Qed.

(** C3.  Precedence, parentheses and the caret: ["2+3*4"] evaluates to 14,
    ["2^10"] is rewritten to ["2**10"] and evaluates to 1024, and
    ["(2+3)*4"] evaluates to 20. *)
Theorem arithmetic_examples (h : Host) :
  ast_parse h (expression_of "2+3*4") =
    Ok {| body := BinOp (Constant (VInt 2)) Add
                        (BinOp (Constant (VInt 3)) Mult (Constant (VInt 4))) |}
  /\ evaluate_expression h "2+3*4" = shows (VInt 14)
  /\ expression_of "2^10" = "2**10"
  /\ evaluate_expression h "2^10" = shows (VInt 1024)
  /\ ast_parse h (expression_of "(2+3)*4") =
    Ok {| body := BinOp (BinOp (Constant (VInt 2)) Add (Constant (VInt 3)))
                        Mult (Constant (VInt 4)) |}
  /\ evaluate_expression h "(2+3)*4" = shows (VInt 20).
Proof. repeat split; vm_compute; reflexivity. Qed.

(** C4, as the program has it.  What decides is the identifier in the
    [Name] node.  For an identifier [id] that is not in the registry, the
    walk raises on the bare name and on a call of it; the calculator
    shows the error for the inputs [id(1)] and [id] when [id] is written
    in ASCII, where the node holds the identifier as written, and for
    every input that the parser turns into the name [id] or into a call
    of it. *)
Theorem unregistered_identifier_fails (h : Host) (id : string) :
  ALLOWED_NAMES !! id = None ->
  (_eval h ALLOWED_OPERATORS (Name id)
     = Raise (ValueError "Unsupported expression")
   /\ forall args kws,
       _eval h ALLOWED_OPERATORS (Call (Name id) args kws)
       = Raise (ValueError "Invalid function"))
  /\ (identifier id = true ->
      evaluate_expression h (id ++ "(1)") = shows_error
      /\ evaluate_expression h id = shows_error)
  /\ (forall s tree,
      ast_parse h (expression_of s) = Ok tree ->
      (body tree = Name id
       \/ exists args kws, body tree = Call (Name id) args kws) ->
      evaluate_expression h s = shows_error).
Proof.
  intros Hid.
  assert (_eval h ALLOWED_OPERATORS (Name id)
          = Raise (ValueError "Unsupported expression")) as Hname.
  { cbn [_eval]. now rewrite Hid. }
  assert (forall args kws,
             _eval h ALLOWED_OPERATORS (Call (Name id) args kws)
             = Raise (ValueError "Invalid function")) as Hcall.
  { intros args kws. cbn [_eval]. now rewrite Hid. }
  split; [now split|]. split.
  - intros Hident. split.
    + eapply evaluate_expression_raises.
      * rewrite expression_of_plain by now apply identifier_plain.
        apply ast_parse_fragment, parse_fragment_call, Hident.
      * cbn [body]. now rewrite Hcall.
    + eapply evaluate_expression_raises.
      * rewrite expression_of_plain.
        -- apply ast_parse_fragment, parse_fragment_name, Hident.
        -- rewrite <- (append_empty_r id). now apply identifier_plain.
      * cbn [body]. now rewrite Hname.
  - intros s tree Hp [Hb|(args & kws & Hb)];
      eapply evaluate_expression_raises; eauto; rewrite Hb.
    + now rewrite Hname.
    + now rewrite Hcall.
Qed.

Lemma unregistered_identifier_fails_witness :
  evaluate_expression sample_host "foo(1)" = shows_error
  /\ evaluate_expression sample_host "foo" = shows_error.
Proof.
  assert (ALLOWED_NAMES !! "foo" = None) as H by (vm_compute; reflexivity).
  destruct (unregistered_identifier_fails sample_host "foo" H) as (_ & W & _).
  apply W. reflexivity.
Defined.

(** C4 as stated fails: the fullwidth spelling of [sqrt] is an identifier
    that is no key of the registry, and yet the call of it with [1] and
    the bare name return values, since the parser puts the normal form
    [sqrt] into the node. *)
Lemma fullwidth_spelling_evaluates :
  ALLOWED_NAMES !! fullwidth_sqrt = None
  /\ evaluate_expression normalising_host (fullwidth_sqrt ++ "(1)")
     = shows (VFloat 1)
  /\ evaluate_expression normalising_host fullwidth_sqrt
     = shows (VCallable (math_fn "sqrt")).
Proof. repeat split; vm_compute; reflexivity. Qed.

(** C5, as the program has it.  ["1/0"] fails, and so does true division
    of any number by zero; ["sqrt(-1)"] fails.  A negative base raised to
    a fractional exponent does not fail: [float_pow] hands a finite
    negative base with a finite exponent that is not an integer to the
    complex power, and the calculator shows a complex value for
    ["(-8)^0.5"] whenever the components that the C library gives are
    finite. *)
Theorem domain_errors_and_complex_power (h : Host) (x y : float)
    (re im : float) :
  is_finite x = true -> (x <? 0)%float = true ->
  is_finite y = true -> is_integral y = false ->
  complex_pow_of_reals h (-8)%float 0.5%float = Ok (VComplex re im) ->
  evaluate_expression h "1/0" = shows_error
  /\ (forall v d, as_number v <> None -> In d zero_divisors ->
      raises (call_operator h operator_truediv [v; d]))
  /\ evaluate_expression h "sqrt(-1)" = shows_error
  /\ call_operator h operator_pow [VFloat x; VFloat y]
     = complex_pow_of_reals h x y
  /\ evaluate_expression h "(-8)^0.5" = shows (VComplex re im).
Proof.
  intros Fx Nx Fy Iy Hc. split; [|split; [|split; [|split]]].
  - vm_compute. reflexivity.
  - intros v d Hv Hd. now apply truediv_by_zero.
  - vm_compute. reflexivity.
  - cbn. now apply float_pow_negative_fractional.
  - assert (evaluate_expression h "(-8)^0.5" =
            match complex_pow_of_reals h (-8)%float 0.5%float with
            | Ok result => shows result
            | Raise _ => shows_error
            end) as -> by (vm_compute; reflexivity).
    now rewrite Hc.
Qed.

Lemma domain_errors_and_complex_power_witness :
  evaluate_expression sample_host "(-8)^0.5"
  = shows (VComplex 1.7319121124709868e-16%float 2.8284271247461903%float).
Proof.
  apply (domain_errors_and_complex_power sample_host (-8)%float 0.5%float);
    vm_compute; reflexivity.
Defined.

(** C5 as stated fails: on the input ["(-8)^0.5"], a negative base with a
    fractional exponent, the calculator does not fail; it shows the
    complex number 1.7319121124709868e-16+2.8284271247461903j. *)
Lemma negative_base_fractional_exponent_shown :
  evaluate_expression sample_host "(-8)^0.5"
  = shows (VComplex 1.7319121124709868e-16%float 2.8284271247461903%float).
Proof. vm_compute. reflexivity. Qed.

(** C6, as the program has it.  What decides is the identifier in the
    [Name] node: a bare name evaluates to the registry entry of that
    identifier whenever it has one, a constant or a function alike, and
    fails only when it has none.  So it is for every input that the
    parser turns into a [Name] node, and for a name written as an ASCII
    identifier, which is the identifier of its node: the input ["sqrt"]
    evaluates to the function [math.sqrt], and ["pi"] to the constant. *)
Theorem bare_name_returns_registry_entry (h : Host) :
  (forall id,
      _eval h ALLOWED_OPERATORS (Name id) =
      match ALLOWED_NAMES !! id with
      | Some obj => Ok obj
      | None => Raise (ValueError "Unsupported expression")
      end)
  /\ (forall s tree id,
      ast_parse h (expression_of s) = Ok tree ->
      body tree = Name id ->
      evaluate_expression h s =
      match ALLOWED_NAMES !! id with
      | Some obj => shows obj
      | None => shows_error
      end)
  /\ (forall id,
      identifier id = true ->
      evaluate_expression h id =
      match ALLOWED_NAMES !! id with
      | Some obj => shows obj
      | None => shows_error
      end)
  /\ evaluate_expression h "sqrt" = shows (VCallable (math_fn "sqrt"))
  /\ evaluate_expression h "sin" = shows (VCallable fn_sin_deg)
  /\ evaluate_expression h "pi" = shows (VFloat math_pi).
Proof.
  assert (forall s tree id,
      ast_parse h (expression_of s) = Ok tree ->
      body tree = Name id ->
      evaluate_expression h s =
      match ALLOWED_NAMES !! id with
      | Some obj => shows obj
      | None => shows_error
      end) as Hgen.
  { intros s tree id Hp Hb.
    rewrite (evaluate_expression_parsed h s tree Hp), Hb.
    cbn [_eval]. now destruct (ALLOWED_NAMES !! id). }
  split; [reflexivity|]. split; [exact Hgen|]. split.
  - intros id Hident. apply (Hgen id {| body := Name id |}); [|reflexivity].
    rewrite expression_of_plain.
    + apply ast_parse_fragment, parse_fragment_name, Hident.
    + rewrite <- (append_empty_r id). now apply identifier_plain.
  - split; [|split]; vm_compute; reflexivity.
Qed.

Lemma bare_name_returns_registry_entry_witness :
  evaluate_expression sample_host "tanh" = shows (VCallable (math_fn "tanh")).
Proof.
  destruct (bare_name_returns_registry_entry sample_host)
    as (_ & _ & W & _).
  rewrite (W "tanh" eq_refl). vm_compute. reflexivity.
Defined.

(** C6 as stated fails: the bare name ["sqrt"] resolves to a function, and
    the calculator does not fail on it; it shows the function. *)
Lemma bare_function_name_shown :
  evaluate_expression sample_host "sqrt" = shows (VCallable (math_fn "sqrt")).
Proof. vm_compute. reflexivity. Qed.

(** C7, as the program has it.  A [Constant] node evaluates to the value
    of its literal whatever the type of the value: the string literal
    ['abc'] evaluates to the string and [True] to the boolean, neither is
    rejected. *)
Theorem constant_evaluates_to_its_value (h : Host) (table : operator_table)
    (v : value) :
  _eval h table (Constant v) = Ok v
  /\ ast_parse h (expression_of "'abc'") = Ok {| body := Constant (VStr "abc") |}
  /\ evaluate_expression h "'abc'" = shows (VStr "abc")
  /\ evaluate_expression h "True" = shows (VBool true).
Proof. split; [reflexivity|]. repeat split; vm_compute; reflexivity. Qed.

(** C7 as stated fails: the input ['abc'], a literal that is not a number,
    is not rejected; the calculator shows the string. *)
Lemma string_literal_shown :
  evaluate_expression sample_host "'abc'" = shows (VStr "abc").
Proof. vm_compute. reflexivity. Qed.

(** C8.  A percent sign at the end of the input is replaced by [/100]
    before parsing: ["50%"] becomes ["50/100"] and evaluates to 0.5. *)
Theorem trailing_percent_divides_by_hundred (h : Host) :
  (forall s, expression_of (s ++ "%") = expression_of s ++ "/100")
  /\ expression_of "50%" = "50/100"
  /\ ast_parse h (expression_of "50%") =
     Ok {| body := BinOp (Constant (VInt 50)) Div (Constant (VInt 100)) |}
  /\ evaluate_expression h "50%" = shows (VFloat 0.5).
Proof.
  split; [exact expression_of_trailing_percent|].
  repeat split; vm_compute; reflexivity.
Qed.

(** C9.  Whatever the input, the expression handed to the parser has no
    percent sign, the tree has no [Mod] node, and the calculator shows
    the same with the [Mod] entry deleted from the operator table: the
    entry is there, and [safe_eval] applies it to ["7%3"], but
    [evaluate_expression] divides 7 by 1003.  The button [mod] appends the
    percent sign that becomes [/100]. *)
Theorem modulo_unreachable (h : Host) (s : string) :
  mod_from_percent h ->
  occurs percent (expression_of s) = false
  /\ (forall tree, ast_parse h (expression_of s) = Ok tree ->
      mentions Mod (body tree) = false)
  /\ evaluate_expression_with h (without (BinClass Mod) ALLOWED_OPERATORS) s
     = evaluate_expression h s
  /\ expression_of (on_button_click_mod s) = expression_of s ++ "/100"
  /\ getitem ALLOWED_OPERATORS (BinClass Mod) = Ok operator_mod
  /\ getitem (without (BinClass Mod) ALLOWED_OPERATORS) (BinClass Mod)
     = Raise KeyError
  /\ safe_eval h "7%3" = Ok (VInt 1)
  /\ evaluate_expression h "7%3" = shows (VFloat 0.006979062811565304).
Proof.
  intros Hh.
  assert (forall tree, ast_parse h (expression_of s) = Ok tree ->
                       mentions Mod (body tree) = false) as Htree.
  { intros tree. apply ast_parse_no_mod; [exact Hh|apply expression_of_clears]. }
  split; [apply expression_of_clears|]. split; [exact Htree|]. split.
  - unfold evaluate_expression, evaluate_expression_with, safe_eval_with.
    destruct (ast_parse h (expression_of s)) as [tree|e] eqn:E; [|reflexivity].
    cbn [bind]. now rewrite _eval_without_mod by auto.
  - split; [apply expression_of_trailing_percent|].
    split; [vm_compute; reflexivity|].
    split; [apply getitem_without_same|].
    split; vm_compute; reflexivity.
Qed.

Lemma sample_host_mod_from_percent : mod_from_percent sample_host.
Proof. intros s tree H. discriminate H. Qed.

Lemma modulo_unreachable_witness :
  evaluate_expression_with sample_host
    (without (BinClass Mod) ALLOWED_OPERATORS) "7%3"
  = evaluate_expression sample_host "7%3".
Proof.
  apply (modulo_unreachable sample_host "7%3" sample_host_mod_from_percent).
Defined.

(** The degree functions on a computed result that is finite. *)
Lemma degree_function_value (func : float -> float) x r :
  math_radians x = Ok r ->
  is_finite (func r) = true ->
  (r0 <- math_radians x ;;
   v <- (d <- as_double (VFloat r0) ;; math_1 func false d) ;;
   Ok (round_small v eps_default))
  = Ok (if (abs (func r) <? eps_default)%float then VInt 0
        else VFloat (func r)).
Proof.
  intros Hr Hf. rewrite Hr. cbn [bind as_double].
  rewrite (math_1_finite _ _ Hf). reflexivity.
Qed.

(** The exact sine of the radians of 1e-9 is not zero. *)
Lemma exact_sine_positive :
  (0 < sin (F2R 1.7453292519943298e-11))%R.
Proof.
  rewrite <- Q2R_0. unfold F2R.
  apply (sin_between _ 0 1 0); decide_rational.
Qed.

(** C10.  For an argument [x] whose radians are [r], each of [sin_deg],
    [cos_deg] and [tan_deg] is decided by the float that the C library
    computes at [r], whatever the exact value is: when the magnitude of
    that float is below 1e-10 the result is the integer 0, and when the
    float is finite and its magnitude is not below 1e-10 the result is
    that float, unchanged.  The three functions are taken one by one.  At
    the argument 1e-9 the exact sine is not zero, and [sin_deg] is 0 as
    soon as the computed sine is small. *)
Theorem snap_decided_by_computed_magnitude (h : Host) (x : value) (r : float) :
  math_radians x = Ok r ->
  ((abs (libm_sin h r) <? eps_default)%float = true ->
   sin_deg h x = Ok (VInt 0))
  /\ ((abs (libm_cos h r) <? eps_default)%float = true ->
      cos_deg h x = Ok (VInt 0))
  /\ ((abs (libm_tan h r) <? eps_default)%float = true ->
      tan_deg h x = Ok (VInt 0))
  /\ (is_finite (libm_sin h r) = true ->
      sin_deg h x = Ok (if (abs (libm_sin h r) <? eps_default)%float
                        then VInt 0 else VFloat (libm_sin h r)))
  /\ (is_finite (libm_cos h r) = true ->
      cos_deg h x = Ok (if (abs (libm_cos h r) <? eps_default)%float
                        then VInt 0 else VFloat (libm_cos h r)))
  /\ (is_finite (libm_tan h r) = true ->
      tan_deg h x = Ok (if (abs (libm_tan h r) <? eps_default)%float
                        then VInt 0 else VFloat (libm_tan h r)))
  /\ math_radians (VFloat 1e-9) = Ok 1.7453292519943298e-11%float
  /\ (0 < sin (F2R 1.7453292519943298e-11))%R.
Proof.
  intros Hr.
  split; [exact (degree_function_snaps (libm_sin h) x r Hr)|].
  split; [exact (degree_function_snaps (libm_cos h) x r Hr)|].
  split; [exact (degree_function_snaps (libm_tan h) x r Hr)|].
  split; [exact (degree_function_value (libm_sin h) x r Hr)|].
  split; [exact (degree_function_value (libm_cos h) x r Hr)|].
  split; [exact (degree_function_value (libm_tan h) x r Hr)|].
  split; [vm_compute; reflexivity|exact exact_sine_positive].
Qed.

Lemma snap_decided_by_computed_magnitude_witness :
  sin_deg sample_host (VFloat 1e-9) = Ok (VInt 0)
  /\ tan_deg sample_host (VFloat 1e-9) = Ok (VInt 0)
  /\ cos_deg sample_host (VInt 90) = Ok (VInt 0)
  /\ sin_deg sample_host (VInt 90) = Ok (VFloat 1)
  /\ sin_deg sample_host (VInt 30) = Ok (VFloat 0.49999999999999994).
Proof.
  destruct (snap_decided_by_computed_magnitude sample_host (VFloat 1e-9)
              1.7453292519943298e-11%float eq_refl) as (S1 & _ & T1 & _).
  destruct (snap_decided_by_computed_magnitude sample_host (VInt 90)
              half_pi eq_refl) as (_ & C2 & _ & S2 & _).
  destruct (snap_decided_by_computed_magnitude sample_host (VInt 30)
              radians_30 eq_refl) as (_ & _ & _ & S3 & _).
  split; [apply S1; reflexivity|]. split; [apply T1; reflexivity|].
  split; [apply C2; reflexivity|]. split; [apply S2; reflexivity|].
  apply S3; reflexivity.
Defined.

(** * Further properties

    Of the buttons and keys, of the replacements and of the registry. *)

(** ** Texts *)

Lemma all_continuation_app s t :
  all_continuation (s ++ t) = all_continuation s && all_continuation t.
Proof.
  unfold all_continuation.
  induction s as [|c s IH]; cbn [append list_ascii_of_string forallb];
    [reflexivity|].
  now rewrite IH, andb_assoc.
Qed.

Lemma one_character_not_continuation t :
  one_character t = true -> all_continuation t = false.
Proof.
  destruct t as [|c r]; [discriminate|]. simpl.
  intros H. apply andb_true_iff in H as [H _].
  apply negb_true_iff in H. unfold all_continuation. simpl. now rewrite H.
Qed.

(** Taking the last character off a text that ends with the character [t]
    leaves what was before [t]. *)
Lemma drop_last_app s t : one_character t = true -> drop_last (s ++ t) = s.
Proof.
  intros Ht. induction s as [|c s IH].
  - destruct t as [|d r]; [discriminate|].
    simpl in Ht. apply andb_true_iff in Ht as [_ Hr].
    cbn [append drop_last]. now rewrite Hr.
  - change (String c s ++ t) with (String c (s ++ t)). cbn [drop_last].
    rewrite all_continuation_app, (one_character_not_continuation t Ht).
    rewrite andb_false_r. now rewrite IH.
Qed.

Lemma eqb_one_character t l :
  one_character t = true -> one_character l = false -> String.eqb t l = false.
Proof.
  intros Ht Hl. apply String.eqb_neq. intros ->. congruence.
Qed.

Lemma prefix_empty s : String.prefix "" s = true.
Proof. now destruct s. Qed.

Lemma prefix_minus c r :
  String.prefix "-" (String c r) = Ascii.eqb c "-".
Proof.
  cbn [String.prefix]. rewrite prefix_empty.
  destruct (ascii_dec "-" c) as [<-|Hne]; [reflexivity|].
  symmetry. apply Ascii.eqb_neq. congruence.
Qed.

Lemma toggle_sign_input st :
  AdvancedCalculator.current_input (AdvancedCalculator.toggle_sign st)
  = match AdvancedCalculator.current_input st with
    | String c r => if Ascii.eqb c "-" then r else String "-" (String c r)
    | EmptyString => "-"
    end.
Proof.
  unfold AdvancedCalculator.toggle_sign. cbn [AdvancedCalculator.assign
    AdvancedCalculator.current_input].
  destruct (AdvancedCalculator.current_input st) as [|c r]; [reflexivity|].
  rewrite prefix_minus. now destruct (Ascii.eqb c "-").
Qed.

(** X1.  The sign button pressed twice gives back the pending input,
    unless that input starts with two minus signs: then both are taken
    off.  The display shows the pending input, blank when there is none. *)
Theorem toggle_sign_twice (st : AdvancedCalculator.state) :
  let st' := AdvancedCalculator.toggle_sign (AdvancedCalculator.toggle_sign st) in
  AdvancedCalculator.current_input st'
  = match AdvancedCalculator.current_input st with
    | String "-" (String "-" r) => r
    | ci => ci
    end
  /\ AdvancedCalculator.result_var st' = AdvancedCalculator.current_input st'.
Proof.
  cbn zeta. split; [|reflexivity].
  rewrite !toggle_sign_input.
  destruct (AdvancedCalculator.current_input st) as [|c r]; [reflexivity|].
  destruct (Ascii.eqb_spec c "-") as [->|Hc].
  - destruct r as [|d r]; [reflexivity|].
    destruct (Ascii.eqb_spec d "-") as [->|Hd]; [reflexivity|].
    destruct d as [[] [] [] [] [] [] [] []]; try reflexivity. contradiction.
  - cbn [Ascii.eqb Bool.eqb].
    destruct c as [[] [] [] [] [] [] [] []]; try reflexivity. contradiction.
Qed.

(** X2.  A button whose label is one character and has no meaning of its
    own (a digit, the point, a parenthesis, an operator sign, the caret,
    the percent sign) appends its label, and the backspace button after
    it gives back the pending input as it was, also when the label takes
    several bytes; the display then shows that input, or [0] when there
    is none. *)
Theorem backspace_undoes_character (h : Host) (b : Builtins)
    (t : string) (st : AdvancedCalculator.state) :
  one_character t = true ->
  mem_string t ["C"; "="; "e"; "⌫"; "±"; "√"; "π"] = false ->
  let st1 := AdvancedCalculator.on_button_click h b t st in
  let st2 := AdvancedCalculator.on_button_click h b "⌫" st1 in
  AdvancedCalculator.current_input st1 = AdvancedCalculator.current_input st ++ t
  /\ AdvancedCalculator.current_input st2 = AdvancedCalculator.current_input st
  /\ AdvancedCalculator.result_var st2
     = or_else (AdvancedCalculator.current_input st) "0".
Proof.
  intros Ht Hm. cbn [mem_string existsb] in Hm.
  repeat (apply orb_false_iff in Hm as [? Hm]).
  assert (AdvancedCalculator.on_button_click h b t st
          = AdvancedCalculator.append_input t st) as E.
  { unfold AdvancedCalculator.on_button_click.
    rewrite (eqb_one_character t "More"), (eqb_one_character t "x²"),
      (eqb_one_character t "x³"), (eqb_one_character t "mod")
      by (assumption || reflexivity).
    repeat match goal with H : String.eqb t _ = false |- _ => rewrite H; clear H end.
    assert (mem_string t AdvancedCalculator.function_buttons = false) as ->.
    { unfold AdvancedCalculator.function_buttons. cbn [mem_string existsb].
      now rewrite !(eqb_one_character t) by (assumption || reflexivity). }
    cbn [mem_string existsb].
    rewrite (eqb_one_character t "pow") by (assumption || reflexivity).
    destruct (String.eqb_spec t "^") as [->|_]; reflexivity. }
  cbn zeta. rewrite E.
  unfold AdvancedCalculator.on_button_click. cbn.
  rewrite (drop_last_app _ _ Ht). auto.
Qed.

Lemma backspace_undoes_character_witness :
  AdvancedCalculator.current_input
    (AdvancedCalculator.on_button_click sample_host sample_builtins "⌫"
       (AdvancedCalculator.on_button_click sample_host sample_builtins "×"
          (AdvancedCalculator.assign "2" "2" AdvancedCalculator.__init__)))
  = "2".
Proof.
  apply (backspace_undoes_character sample_host sample_builtins "×"
           (AdvancedCalculator.assign "2" "2" AdvancedCalculator.__init__));
    reflexivity.
Defined.

(** ** What every callback keeps *)

Lemma display_assign_same t st :
  display_follows_input (AdvancedCalculator.assign t t st).
Proof. now left. Qed.

Lemma display_assign_zero st :
  display_follows_input (AdvancedCalculator.assign "" "0" st).
Proof. right. auto. Qed.

Lemma display_assign_error st :
  display_follows_input (AdvancedCalculator.assign "" "Error" st).
Proof. right. auto. Qed.

Create HintDb display.
#[local] Hint Resolve display_assign_same display_assign_zero
  display_assign_error : display.

Lemma display_apply_unary b func st :
  display_follows_input (AdvancedCalculator.apply_unary b func st).
Proof.
  unfold AdvancedCalculator.apply_unary.
  destruct (bind _ _); auto with display.
Qed.

Lemma display_evaluate_expression h b st :
  display_follows_input (AdvancedCalculator.evaluate_expression h b st).
Proof.
  unfold AdvancedCalculator.evaluate_expression.
  destruct (bind _ _); auto with display.
Qed.

Lemma display_on_button_click h b text st :
  display_follows_input st ->
  display_follows_input (AdvancedCalculator.on_button_click h b text st).
Proof.
  intros H. unfold AdvancedCalculator.on_button_click,
    AdvancedCalculator.append_constant, AdvancedCalculator.append_input,
    AdvancedCalculator.wrap_function, AdvancedCalculator.toggle_sign.
  repeat match goal with
         | |- context [if ?c then _ else _] => destruct c
         end;
    auto using display_apply_unary, display_evaluate_expression with display;
    try (destruct (drop_last _); now auto with display);
    destruct (str b _); auto with display.
Qed.

Lemma display_key_press h b event st :
  display_follows_input st ->
  display_follows_input (AdvancedCalculator.key_press h b event st).
Proof.
  intros H. unfold AdvancedCalculator.key_press, AdvancedCalculator.append_input.
  repeat match goal with
         | |- context [if ?c then _ else _] => destruct c
         end;
    auto using display_on_button_click, display_evaluate_expression
      with display.
Qed.

Lemma display_on_button_click_any h b text st :
  mem_string text ["More"; "π"; "e"] = false ->
  display_follows_input (AdvancedCalculator.on_button_click h b text st).
Proof.
  intros H. cbn [mem_string existsb] in H.
  apply orb_false_iff in H as [H1 H]. apply orb_false_iff in H as [H2 H].
  apply orb_false_iff in H as [H3 _].
  unfold AdvancedCalculator.on_button_click. rewrite H1, H2, H3.
  unfold AdvancedCalculator.append_input,
    AdvancedCalculator.wrap_function, AdvancedCalculator.toggle_sign.
  repeat match goal with
         | |- context [if ?c then _ else _] => destruct c
         end;
    try (destruct (drop_last _));
    first [apply display_assign_same|apply display_assign_zero
          |apply display_apply_unary|apply display_evaluate_expression].
Qed.

(** X3.  Each call of [on_button_click] and of [key_press] leaves the
    display in step with the pending input when it was in step before,
    as it is in the state that [__init__] leaves; and a call of
    [on_button_click] with any label but [More] and the two constants
    puts it in step whatever the display held before, as does a call of
    [key_press] with a key that it appends.  In step: the display shows
    the pending input, or there is no pending input and the display shows
    [0] or [Error].  The display is an entry that can be typed into; what
    the entry itself inserts then is the widget's doing, not that of the
    two callbacks, and is not covered. *)
Theorem callbacks_keep_display_in_step (h : Host) (b : Builtins) :
  display_follows_input AdvancedCalculator.__init__
  /\ (forall text st,
      display_follows_input st ->
      display_follows_input (AdvancedCalculator.on_button_click h b text st))
  /\ (forall event st,
      display_follows_input st ->
      display_follows_input (AdvancedCalculator.key_press h b event st))
  /\ (forall text st,
      mem_string text ["More"; "π"; "e"] = false ->
      display_follows_input (AdvancedCalculator.on_button_click h b text st))
  /\ (forall event st,
      contains "0123456789.+-*/()^" (AdvancedCalculator.char event) = true ->
      display_follows_input (AdvancedCalculator.key_press h b event st)).
Proof.
  split; [right; split; [reflexivity|now left]|].
  split; [intros text st; apply display_on_button_click|].
  split; [intros event st; apply display_key_press|].
  split; [intros text st; apply display_on_button_click_any|].
  intros event st H. unfold AdvancedCalculator.key_press. rewrite H.
  apply display_assign_same.
Qed.

Lemma callbacks_keep_display_in_step_witness :
  display_follows_input
    (AdvancedCalculator.on_button_click sample_host sample_builtins "7"
       (AdvancedCalculator.assign "" "typed by hand"
          AdvancedCalculator.__init__)).
Proof.
  destruct (callbacks_keep_display_in_step sample_host sample_builtins)
    as (_ & _ & _ & W & _).
  apply W. reflexivity.
Defined.

Lemma frame_on_button_click h b text st :
  String.eqb text "More" = false ->
  same_frame st (AdvancedCalculator.on_button_click h b text st).
Proof.
  intros Hne.
  unfold AdvancedCalculator.on_button_click. rewrite Hne.
  unfold AdvancedCalculator.append_constant, AdvancedCalculator.append_input,
    AdvancedCalculator.wrap_function, AdvancedCalculator.toggle_sign,
    AdvancedCalculator.apply_unary, AdvancedCalculator.evaluate_expression.
  repeat match goal with
         | |- context [if ?c then _ else _] => destruct c
         | |- context [match ?c with Ok _ => _ | Raise _ => _ end] => destruct c
         end; split; reflexivity.
Qed.

Lemma frame_key_press h b event st :
  same_frame st (AdvancedCalculator.key_press h b event st).
Proof.
  unfold AdvancedCalculator.key_press.
  repeat match goal with
         | |- context [if ?c then _ else _] => destruct c
         end;
    try (apply frame_on_button_click; reflexivity);
    try (split; reflexivity).
  unfold AdvancedCalculator.evaluate_expression.
  destruct (bind _ _); split; reflexivity.
Qed.

Lemma frame_run h b events st :
  let st' := run h b events st in
  AdvancedCalculator.advanced_visible st'
  = xorb (AdvancedCalculator.advanced_visible st) (Nat.odd (more_clicks events))
  /\ (AdvancedCalculator.advanced_visible st
      = AdvancedCalculator.adv_frame_gridded st ->
      AdvancedCalculator.advanced_visible st'
      = AdvancedCalculator.adv_frame_gridded st').
Proof.
  cbn zeta. revert st. unfold run.
  induction events as [|e events IH]; intros st.
  - cbn. split; [now rewrite xorb_false_r|auto].
  - cbn [fold_left more_clicks]. specialize (IH (handle h b e st)).
    destruct IH as [IH1 IH2].
    assert (if is_more e
            then AdvancedCalculator.advanced_visible (handle h b e st)
                 = negb (AdvancedCalculator.advanced_visible st)
                 /\ AdvancedCalculator.adv_frame_gridded (handle h b e st)
                    = negb (AdvancedCalculator.advanced_visible st)
            else same_frame st (handle h b e st)) as Hstep.
    { destruct e as [label|k]; cbn [is_more handle].
      - destruct (String.eqb label "More") eqn:E.
        + unfold AdvancedCalculator.on_button_click. rewrite E.
          cbn. now destruct (AdvancedCalculator.advanced_visible st).
        + now apply frame_on_button_click.
      - apply frame_key_press. }
    destruct (is_more e).
    + destruct Hstep as [Hv Hg]. split.
      * rewrite IH1, Hv, Nat.odd_succ, <- Nat.negb_odd.
        now destruct (AdvancedCalculator.advanced_visible st),
          (Nat.odd (more_clicks events)).
      * intros _. apply IH2. congruence.
    + destruct Hstep as [Hv Hg]. split.
      * now rewrite IH1, Hv.
      * intros H. apply IH2. congruence.
Qed.

(** X4.  After any sequence of calls of [on_button_click] and [key_press]
    from the state that [__init__] leaves, [advanced_visible] is true
    exactly when the advanced frame is on the grid, and that is when the
    button [More] has been clicked an odd number of times: no key and no
    other button shows or hides the frame. *)
Theorem advanced_frame_follows_more (h : Host) (b : Builtins)
    (events : list event) :
  let st := run h b events AdvancedCalculator.__init__ in
  AdvancedCalculator.advanced_visible st = Nat.odd (more_clicks events)
  /\ AdvancedCalculator.adv_frame_gridded st = Nat.odd (more_clicks events).
Proof.
  cbn zeta.
  destruct (frame_run h b events AdvancedCalculator.__init__) as [H1 H2].
  cbn zeta in H1, H2. rewrite <- H2 by reflexivity.
  rewrite H1. split; reflexivity.
Qed.

(** X5.  A key whose event has an empty [char] (a modifier or an arrow
    key) passes the test [key in '0123456789.+-*/()^'], since the empty
    text is part of every text: the pending input stays as it is and the
    display is set to it, so that a [0] or an [Error] on the display is
    wiped out.  The test of the key symbol [Escape] is not reached. *)
Theorem key_without_character (h : Host) (b : Builtins)
    (keysym : string) (st : AdvancedCalculator.state) :
  AdvancedCalculator.key_press h b
    {| AdvancedCalculator.char := ""; AdvancedCalculator.keysym := keysym |} st
  = AdvancedCalculator.assign (AdvancedCalculator.current_input st)
      (AdvancedCalculator.current_input st) st.
Proof.
  unfold AdvancedCalculator.key_press, AdvancedCalculator.append_input.
  cbn. now rewrite append_empty_r.
Qed.

(** ** The replacements on a text in two parts *)

Lemma prefix_app old s t :
  String.prefix old s = true -> String.prefix old (s ++ t) = true.
Proof.
  revert s. induction old as [|a old IH]; intros s H; [apply prefix_empty|].
  destruct s as [|c s]; [discriminate|].
  change (String c s ++ t) with (String c (s ++ t)).
  cbn [String.prefix] in *. destruct (ascii_dec a c); [now apply IH|discriminate].
Qed.

(** A pattern of two bytes is replaced in each part on its own when the
    second part does not start with the second byte. *)
Lemma replace_from_pair_app x y new t :
  starts_with (Ascii.eqb y) t = false ->
  forall n s, (String.length s <= n)%nat ->
  replace_from (String x (String y "")) new 0 (s ++ t)
  = replace_from (String x (String y "")) new 0 s
    ++ replace_from (String x (String y "")) new 0 t.
Proof.
  intros Ht. induction n as [|n IH]; intros s Hn.
  - destruct s; [reflexivity|simpl in Hn; lia].
  - destruct s as [|c s]; [reflexivity|]. simpl in Hn.
    change (String c s ++ t) with (String c (s ++ t)).
    cbn [replace_from String.length Nat.sub].
    destruct (String.prefix (String x (String y "")) (String c s)) eqn:Hp.
    + change (String c (s ++ t)) with (String c s ++ t).
      rewrite (prefix_app _ _ t Hp).
      destruct s as [|d s]; [cbn in Hp; destruct (ascii_dec x c); discriminate|].
      change (String d s ++ t) with (String d (s ++ t)).
      cbn [replace_from]. rewrite IH by (simpl in Hn; lia).
      now rewrite append_assoc.
    + destruct (String.prefix (String x (String y "")) (String c (s ++ t)))
        eqn:Hq.
      * exfalso. cbn [String.prefix] in Hp, Hq.
        destruct (ascii_dec x c); [|discriminate].
        destruct s as [|d s].
        -- cbn [append] in Hq. destruct t as [|e0 t]; [discriminate|].
           simpl in Hq, Ht.
           destruct (ascii_dec y e0) as [<-|]; [|discriminate].
           now rewrite Ascii.eqb_refl in Ht.
        -- change (String d s ++ t) with (String d (s ++ t)) in Hq.
           simpl in Hp, Hq.
           destruct (ascii_dec y d); [|discriminate].
           destruct s; discriminate.
      * rewrite IH by lia. reflexivity.
Qed.

Lemma replace_from_start p old n0 new s :
  starts_with p s = false -> p n0 = false ->
  starts_with p (replace_from old (String n0 new) 0 s) = false.
Proof.
  intros Hs Hn. destruct s as [|c s]; [reflexivity|].
  cbn [replace_from]. destruct (String.prefix old (String c s)); [exact Hn|exact Hs].
Qed.

Lemma starts_with_weaken (p q : ascii -> bool) s :
  (forall c, q c = true -> p c = true) ->
  starts_with p s = false -> starts_with q s = false.
Proof.
  intros Hpq. destruct s as [|c s]; [reflexivity|]. simpl.
  intros Hp. destruct (q c) eqn:E; [|reflexivity].
  apply Hpq in E. congruence.
Qed.

Lemma expression_of_app_lemma a t :
  starts_with is_continuation t = false ->
  expression_of (a ++ t) = expression_of a ++ expression_of t.
Proof.
  intros Ht. unfold expression_of, replace.
  rewrite (replace_from_pair_app _ _ _ t) with (n := String.length a);
    [|apply (starts_with_weaken is_continuation); [|exact Ht]|lia].
  2:{ intros c E. apply Ascii.eqb_eq in E. now subst c. }
  rewrite (replace_from_pair_app _ _ _ _) with (n := String.length
    (replace_from "×" "*" 0 a)); [| |lia].
  2:{ apply replace_from_start; [|reflexivity].
      apply (starts_with_weaken is_continuation); [|exact Ht].
      intros c E. apply Ascii.eqb_eq in E. now subst c. }
  now rewrite !replace_from_single_app.
Qed.

(** X6.  The four replacements of [evaluate_expression] act on each part
    of a text on its own: the expression of [a ++ t] is the expression of
    [a] followed by the expression of [t], whenever [t] starts at a
    character (not in the middle of the bytes of one). *)
Theorem expression_of_app (a t : string) :
  starts_with is_continuation t = false ->
  expression_of (a ++ t) = expression_of a ++ expression_of t.
Proof. apply expression_of_app_lemma. Qed.

Lemma expression_of_app_witness :
  expression_of ("2×3" ++ "÷4^5%") = "2*3" ++ "/4**5/100".
Proof. apply (expression_of_app "2×3" "÷4^5%"). reflexivity. Defined.

(** ** A text that starts with a call *)

Lemma parse_rest_starts_with_call id fuel :
  forall min_bp lhs ts e r,
    starts_with_call id lhs = true ->
    parse_rest fuel min_bp lhs ts = Some (e, r) ->
    starts_with_call id e = true.
Proof.
  induction fuel as [|f IH]; intros min_bp lhs ts e r Hl H; [discriminate|].
  assert (forall args kws, starts_with_call id (Call lhs args kws) = true) as Hc.
  { intros args kws. destruct lhs; try discriminate Hl; exact Hl. }
  cbn [parse_rest] in H.
  repeat (split_match H; try discriminate H);
    try (injection H as <- <-; exact Hl);
    (eapply IH; [|exact H]); first [apply Hc|exact Hl].
Qed.

Lemma starts_with_call_disallowed table id e :
  ALLOWED_NAMES !! id = None ->
  starts_with_call id e = true -> meets_disallowed table e = true.
Proof.
  intros Hid. induction e as [v|l IHl op r IHr|op a IHa|f IHf args IHargs kws _|n
                 |v IHv attr|v IHv i IHi|cls fs _]
    using expr_ind; intros H; try discriminate H; try reflexivity.
  - simpl in H |- *. destruct (getitem table (BinClass op)); [|reflexivity].
    now rewrite IHl.
  - destruct f; try reflexivity.
    simpl in H |- *. apply String.eqb_eq in H. subst id0. now rewrite Hid.
Qed.

Lemma tokenize_call id fuel s ts :
  identifier id = true ->
  tokenize fuel (id ++ String "(" s) = Some ts ->
  exists ts', ts = TName id :: TLPar :: ts'.
Proof.
  intros Hid H.
  pose proof (lex_name_identifier id Hid (String "(" s) eq_refl eq_refl) as Hlex.
  destruct (identifier_parts id Hid) as (Hstart & _).
  destruct fuel as [|fuel]; [discriminate|].
  destruct id as [|c rest]; [discriminate|]. simpl in Hstart.
  destruct (name_start_codes c Hstart) as (H32 & Hdigit & H46).
  change (String c rest ++ String "(" s) with (String c (rest ++ String "(" s)) in *.
  cbn [tokenize] in H. rewrite H32 in H. unfold lex_token in H.
  rewrite Hdigit, H46, Hstart in H. cbn [orb andb] in H.
  rewrite Hlex in H.
  destruct fuel as [|fuel]; [discriminate|].
  cbn [tokenize] in H.
  change (lex_token "(" s) with (Some (TLPar, s)) in H.
  change (code "(" =? 32)%nat with false in H. cbv iota in H.
  destruct (tokenize fuel s) as [ts'|]; [|discriminate].
  injection H as <-. now exists ts'.
Qed.

Lemma parse_fragment_call_first id s tree :
  identifier id = true ->
  parse_fragment (id ++ String "(" s) = Some tree ->
  starts_with_call id (body tree) = true.
Proof.
  intros Hid H. unfold parse_fragment in H.
  destruct (starts_with _ _); [discriminate|].
  destruct (tokenize _ _) as [ts|] eqn:Et; [|discriminate].
  destruct (tokenize_call id _ s ts Hid Et) as [ts' ->].
  destruct (_ <? _)%nat; [discriminate|].
  remember (3 * length (TName id :: TLPar :: ts') + 3)%nat as fuel eqn:Ef.
  destruct (parse_expr _ _ _) as [[e r]|] eqn:Ep; [|discriminate].
  destruct r; [|discriminate]. injection H as <-. cbn [body].
  destruct fuel as [|[|f]]; [discriminate Ep|discriminate Ep|]. clear Ef.
  cbn [parse_expr parse_rest] in Ep.
  assert (forall args kws, starts_with_call id (Call (Name id) args kws) = true)
    as Hc by (intros; simpl; apply String.eqb_refl).
  repeat (split_match Ep; try discriminate Ep);
    (eapply parse_rest_starts_with_call; [|exact Ep]); apply Hc.
Qed.

Lemma expression_of_call id s :
  identifier id = true ->
  expression_of (id ++ String "(" s) = id ++ String "(" (expression_of s).
Proof.
  intros Hid.
  rewrite expression_of_app_lemma by reflexivity.
  rewrite (expression_of_plain id).
  - reflexivity.
  - rewrite <- (append_empty_r id). now apply identifier_plain.
Qed.

Lemma call_first_raises h id s tree :
  identifier id = true ->
  ALLOWED_NAMES !! id = None ->
  parse_fragment (expression_of (id ++ String "(" s)) = Some tree ->
  raises (safe_eval h (expression_of (id ++ String "(" s))).
Proof.
  intros Hid Hno Hp.
  unfold safe_eval, safe_eval_with.
  rewrite (ast_parse_fragment h _ tree Hp). cbn [bind].
  apply _eval_fail_closed, (starts_with_call_disallowed _ id); [exact Hno|].
  rewrite expression_of_call in Hp by exact Hid.
  exact (parse_fragment_call_first id (expression_of s) tree Hid Hp).
Qed.

(** X9.  A pending input that starts with a call of an identifier outside
    the registry fails, whatever follows the opening parenthesis, whenever
    the fragment of the parser reads the expression: [safe_eval] raises
    and the calculator shows [Error]. *)
Theorem call_of_unregistered_name_fails (h : Host) (id s : string)
    (tree : Expression) :
  identifier id = true ->
  ALLOWED_NAMES !! id = None ->
  parse_fragment (expression_of (id ++ "(" ++ s)) = Some tree ->
  raises (safe_eval h (expression_of (id ++ "(" ++ s)))
  /\ evaluate_expression h (id ++ "(" ++ s) = shows_error.
Proof.
  intros Hid Hno Hp. change ("(" ++ s) with (String "(" s) in *.
  pose proof (call_first_raises h id s tree Hid Hno Hp) as R.
  split; [exact R|].
  unfold evaluate_expression, evaluate_expression_with.
  fold (safe_eval h (expression_of (id ++ String "(" s))).
  now destruct (safe_eval h _).
Qed.

Lemma call_of_unregistered_name_fails_witness :
  evaluate_expression sample_host ("ln" ++ "(" ++ "2)+sqrt(3)") = shows_error.
Proof.
  apply (call_of_unregistered_name_fails sample_host "ln" "2)+sqrt(3)"
           {| body := BinOp (Call (Name "ln") [Constant (VInt 2)] []) Add
                        (Call (Name "sqrt") [Constant (VInt 3)] []) |});
    vm_compute; reflexivity.
Defined.

(** X10.  Of the eleven names that the function buttons wrap the input
    in, [ln] alone is not in the registry.  After the button [ln],
    whatever is appended to the pending input, the button [=] gives
    [Error] with an empty pending input, whenever the fragment of the
    parser reads the expression. *)
Theorem ln_button_gives_error (h : Host) (b : Builtins)
    (st st' : AdvancedCalculator.state) (s : string) (tree : Expression) :
  AdvancedCalculator.current_input st'
  = AdvancedCalculator.current_input
      (AdvancedCalculator.on_button_click h b "ln" st) ++ s ->
  parse_fragment (expression_of (AdvancedCalculator.current_input st'))
  = Some tree ->
  AdvancedCalculator.on_button_click h b "=" st'
  = AdvancedCalculator.assign "" "Error" st'
  /\ List.filter (fun name => bool_decide (ALLOWED_NAMES !! name = None))
       AdvancedCalculator.function_buttons = ["ln"].
Proof.
  intros Hci Hp. split; [|vm_compute; reflexivity].
  assert (exists r, AdvancedCalculator.current_input st'
                    = "ln" ++ String "(" r) as [r Hr].
  { rewrite Hci. change (AdvancedCalculator.on_button_click h b "ln" st)
      with (AdvancedCalculator.wrap_function "ln" st).
    unfold AdvancedCalculator.wrap_function.
    destruct (AdvancedCalculator.current_input st); cbn; eauto. }
  rewrite Hr in Hp.
  pose proof (call_first_raises h "ln" r tree eq_refl eq_refl Hp) as R.
  change (AdvancedCalculator.on_button_click h b "=" st')
    with (AdvancedCalculator.evaluate_expression h b st').
  unfold AdvancedCalculator.evaluate_expression. rewrite Hr.
  now destruct (safe_eval h _).
Qed.

Lemma ln_button_gives_error_witness :
  let st := AdvancedCalculator.on_button_click sample_host sample_builtins "ln"
              (AdvancedCalculator.assign "100" "100" AdvancedCalculator.__init__) in
  AdvancedCalculator.on_button_click sample_host sample_builtins "=" st
  = AdvancedCalculator.assign "" "Error" st.
Proof.
  cbn zeta.
  apply (ln_button_gives_error sample_host sample_builtins
           (AdvancedCalculator.assign "100" "100" AdvancedCalculator.__init__)
           _ ""
           {| body := Call (Name "ln") [Constant (VInt 100)] [] |});
    vm_compute; reflexivity.
Defined.

(** ** The buttons of one operand *)

Lemma sqrt_of_negative (x : float) :
  (x <? 0)%float = true ->
  math_sqrt (VFloat x) = Raise (ValueError "math domain error").
Proof.
  intros H. destruct (negative_is_nonzero x H) as [Hn _].
  unfold math_sqrt, math_1. cbn [as_double bind]. rewrite Hn.
  assert (is_nan (sqrt x) = true) as ->; [|reflexivity].
  revert H. unfold is_nan.
  rewrite FloatAxioms.ltb_spec, FloatAxioms.eqb_spec, FloatAxioms.sqrt_spec.
  change (Prim2SF 0) with (S754_zero false).
  destruct (Prim2SF x) as [s|s| |s m e]; try discriminate;
    destruct s; try discriminate; reflexivity.
Qed.

(** X13.  The square root button on a text that [float] reads as a
    number below zero, minus infinity included, gives [Error] on the
    display and an empty pending input.  The text is the pending input,
    or the display when there is no pending input. *)
Theorem square_root_of_negative (h : Host) (b : Builtins)
    (st : AdvancedCalculator.state) (x : float) :
  AdvancedCalculator.float_of_str b (operand st) = Ok x ->
  (x <? 0)%float = true ->
  AdvancedCalculator.on_button_click h b "√" st
  = AdvancedCalculator.assign "" "Error" st.
Proof.
  intros Hx Hneg.
  change (AdvancedCalculator.on_button_click h b "√" st)
    with (AdvancedCalculator.apply_unary b
            (fun x => r <- math_sqrt (VFloat x) ;; Ok (VFloat r)) st).
  unfold AdvancedCalculator.apply_unary. fold (operand st).
  rewrite Hx. cbn [bind]. now rewrite (sqrt_of_negative x Hneg).
Qed.

Lemma square_root_of_negative_witness :
  AdvancedCalculator.on_button_click sample_host sample_builtins "√"
    (AdvancedCalculator.assign "-4" "-4" AdvancedCalculator.__init__)
  = AdvancedCalculator.assign "" "Error" AdvancedCalculator.__init__.
Proof.
  apply (square_root_of_negative sample_host sample_builtins
           (AdvancedCalculator.assign "-4" "-4" AdvancedCalculator.__init__)
           (-4)%float); reflexivity.
Defined.

(** X14.  The buttons of the square root, the square and the cube give
    [Error] and an empty pending input when the text they read holds a
    character that no number has, such as a parenthesis, a star, a slash,
    a caret, a percent sign or most letters: so they do on a pending
    expression like [2*3], and on the display [Error] when there is no
    pending input. *)
Theorem unary_buttons_need_a_number (h : Host) (b : Builtins)
    (label : string) (st : AdvancedCalculator.state) :
  mem_string label ["√"; "x²"; "x³"] = true ->
  existsb never_in_float (list_ascii_of_string (operand st)) = true ->
  AdvancedCalculator.on_button_click h b label st
  = AdvancedCalculator.assign "" "Error" st.
Proof.
  intros Hl Hs.
  assert (AdvancedCalculator.float_of_str b (operand st)
          = Raise (ValueError "could not convert string to float")) as E.
  { unfold AdvancedCalculator.float_of_str, float_fragment. now rewrite Hs. }
  cbn [mem_string existsb] in Hl.
  destruct (String.eqb_spec label "√") as [->|_];
    [|destruct (String.eqb_spec label "x²") as [->|_];
      [|destruct (String.eqb_spec label "x³") as [->|_]; [|discriminate Hl]]];
    cbv beta iota delta [AdvancedCalculator.on_button_click];
    cbn [String.eqb Ascii.eqb Bool.eqb];
    unfold AdvancedCalculator.apply_unary; fold (operand st);
    now rewrite E.
Qed.

Lemma unary_buttons_need_a_number_witness :
  AdvancedCalculator.on_button_click sample_host sample_builtins "x²"
    (AdvancedCalculator.assign "" "Error" AdvancedCalculator.__init__)
  = AdvancedCalculator.assign "" "Error" AdvancedCalculator.__init__.
Proof.
  apply (unary_buttons_need_a_number sample_host sample_builtins "x²"
           (AdvancedCalculator.assign "" "Error" AdvancedCalculator.__init__));
    reflexivity.
Defined.

(** ** The registry *)

Lemma registry_lookup k v :
  ALLOWED_NAMES !! k = Some v -> In (k, v) registry_entries.
Proof.
  unfold ALLOWED_NAMES, math_names, registry_entries. intros H.
  apply in_or_app.
  apply lookup_union_Some_raw in H as [H|[_ H]].
  - left. apply elem_of_list_to_map_2 in H. apply list_elem_of_In in H. exact H.
  - right. apply elem_of_list_to_map_2 in H. apply list_elem_of_In in H. exact H.
Qed.

Lemma registry_entries_checked :
  forallb (fun kv => negb (String.prefix "_" (fst kv))
                     && number_or_function (snd kv))
          registry_entries = true.
Proof. vm_compute. reflexivity. Qed.

(** X12.  Every entry of [ALLOWED_NAMES] has a name that does not start
    with an underscore and a value that is a float or a callable. *)
Theorem registry_holds_numbers_and_functions (k : string) (v : value) :
  ALLOWED_NAMES !! k = Some v ->
  String.prefix "_" k = false /\ number_or_function v = true.
Proof.
  intros H. apply registry_lookup in H.
  pose proof registry_entries_checked as Hall.
  rewrite forallb_forall in Hall. specialize (Hall _ H). cbn [fst snd] in Hall.
  apply andb_true_iff in Hall as [H1 H2]. apply negb_true_iff in H1. auto.
Qed.

Lemma registry_holds_numbers_and_functions_witness :
  String.prefix "_" "pi" = false /\ number_or_function (VFloat math_pi) = true.
Proof.
  apply (registry_holds_numbers_and_functions "pi" (VFloat math_pi)).
  vm_compute. reflexivity.
Defined.

(** ** More on the replacements *)

Lemma occurs_replace_single c d new s :
  occurs c new = false ->
  occurs c (replace_from (String d EmptyString) new 0 s)
  = occurs c s && negb (Ascii.eqb d c).
Proof.
  intros Hnew. induction s as [|a s IH]; [reflexivity|].
  rewrite replace_from_single. destruct (Ascii.eqb_spec d a) as [<-|Hne].
  - rewrite occurs_append, Hnew, IH. cbn [occurs orb].
    destruct (Ascii.eqb d c); [now rewrite andb_false_r|reflexivity].
  - cbn [occurs]. rewrite IH.
    destruct (Ascii.eqb_spec a c) as [->|Hac]; cbn [orb].
    + apply Ascii.eqb_neq in Hne. now rewrite Hne.
    + reflexivity.
Qed.

(** X7.  Whatever the pending input, the expression handed to the parser
    holds no caret: every caret has become [**]. *)
Theorem caret_never_reaches_parser (s : string) :
  occurs "^" (expression_of s) = false.
Proof.
  unfold expression_of, replace.
  rewrite occurs_replace_single by reflexivity.
  rewrite occurs_replace_single by reflexivity.
  cbn [Ascii.eqb Bool.eqb negb]. now rewrite andb_false_r.
Qed.

(** X8.  A pending input without a caret, a percent sign and the first
    byte of the multiplication and division signs is handed to the parser
    unchanged. *)
Theorem plain_text_unchanged (s : string) :
  plain_input s = true -> expression_of s = s.
Proof. apply expression_of_plain. Qed.

Lemma plain_text_unchanged_witness :
  expression_of "-(2.5+sin(30))*4/7" = "-(2.5+sin(30))*4/7".
Proof. apply (plain_text_unchanged "-(2.5+sin(30))*4/7"). reflexivity. Defined.

(** X11.  A call of a name that the registry maps to a float ([pi], [e],
    [tau], [inf], [nan]) raises, whatever the arguments. *)
Theorem calling_a_constant_fails (h : Host) (id : string) (x : float)
    (args : list expr) (kws : list (option string * expr)) :
  ALLOWED_NAMES !! id = Some (VFloat x) ->
  raises (_eval h ALLOWED_OPERATORS (Call (Name id) args kws)).
Proof.
  intros H. cbn [_eval]. rewrite H.
  match goal with |- raises (bind ?r _) => destruct r end; exact I.
Qed.

Lemma calling_a_constant_fails_witness :
  raises (_eval sample_host ALLOWED_OPERATORS
            (Call (Name "pi") [Constant (VInt 2)] [])).
Proof.
  apply (calling_a_constant_fails sample_host "pi" math_pi).
  vm_compute. reflexivity.
Defined.
